(** * BloodLink BD: the active-requests view (ViewRequestsPage)

    A shallow embedding of the live-query subscriber, the filter controls and
    the filter/sort pipeline [filteredRequests] of the requests page, together
    with the properties of the specification that concern them.

    Modelling conventions.
    - A record is what it is at run time: a JavaScript object, here a finite
      map from property names to values ([gmap string JSValue]).  The
      TypeScript annotations ([as BloodRequest], [as Timestamp]) are
      compile-time only and leave no trace in the object.  The values of a
      field are [undefined], [null], booleans, numbers, strings and
      Timestamps; fields that hold an array or a map are outside the
      model.
    - A Firestore [Timestamp] is its two fields, [seconds] and
      [nanoseconds].  The numbers the comparator computes with are doubles: a
      finite double is the rational it denotes, and every arithmetic
      operation rounds to the nearest double ([roundDouble]).  A number
      stored in a record is an integer.
    - Strings are sequences of 8-bit code units (the Latin-1 part of UTF-16).
    - A thrown exception is a [Throw] result; nothing in the page catches one.
    - Arrays live in a store of arrays, so that [filter] (which allocates) and
      [sort] (which permutes its receiver in place) can be told apart. *)

From Stdlib Require Import ZArith QArith Bool Ascii String List Permutation
  Sorted Lia.
From stdpp Require Import gmap strings list fin_maps.

Local Open Scope string_scope.
Local Open Scope list_scope.
Local Open Scope Z_scope.

(** ** Numbers *)

(** A JavaScript number is an IEEE 754 binary64 value.  A finite one is
    taken as the rational it denotes, and an arithmetic operation as the
    exact operation followed by the rounding to the nearest number with a
    significand of 53 bits, a tie going to the even significand.  The
    exponent is not bounded: nothing overflows to [Infinity] and there are
    no subnormal numbers, which is binary64 between [2^-1022] and
    [2^1024]. *)

(** [a / b] rounded to the nearest integer, a tie to the even one
    ([0 < b]). *)
Definition roundHalfEven (a b : Z) : Z :=
  let q := a / b in
  let r := a mod b in
  match 2 * r ?= b with
  | Lt => q
  | Gt => q + 1
  | Eq => if Z.even q then q else q + 1
  end.

(** [2^e <= n / d] *)
Definition reaches (n d : positive) (e : Z) : bool :=
  Zpos d * 2 ^ Z.max e 0 <=? Zpos n * 2 ^ Z.max (- e) 0.

(** The exponent of [n / d]: the [e] with [2^e <= n / d < 2^(e+1)]. *)
Definition floorLog2 (n d : positive) : Z :=
  let e0 := Z.log2 (Zpos n) - Z.log2 (Zpos d) in
  if reaches n d e0 then e0 else e0 - 1.

(** [n / d] rounded to 53 significant bits: with [k = 52 - e], the integer
    nearest to [n / d * 2^k], scaled back by [2^k]. *)
Definition roundPos (n d : positive) : Q :=
  let k := 52 - floorLog2 n d in
  let m := roundHalfEven (Zpos n * 2 ^ Z.max k 0) (Zpos d * 2 ^ Z.max (- k) 0) in
  Qred (Qmake (m * 2 ^ Z.max (- k) 0) (Z.to_pos (2 ^ Z.max k 0))).

Definition roundDouble (q : Q) : Q :=
  match Qnum q with
  | Z0 => 0%Q
  | Zpos n => roundPos n (Qden q)
  | Zneg n => Qopp (roundPos n (Qden q))
  end.

(** The sign of a number: [-1], [0] or [1]. *)
Definition sgnQ (q : Q) : Z := Z.sgn (Qnum q).

(** ** Firestore timestamps *)

(** A [Timestamp]: the whole seconds since the epoch and the nanoseconds of
    the fraction of a second. *)
Record Timestamp : Type := {
  seconds : Z;
  nanoseconds : Z
}.

#[global] Instance Timestamp_eq_dec : EqDecision Timestamp.
Proof. solve_decision. Defined.

(** [toMillis()] : [this.seconds * 1000 + this.nanoseconds / 1e6], each of
    the three operations rounded. *)
Definition toMillis (t : Timestamp) : Q :=
  roundDouble (roundDouble (inject_Z (seconds t) * 1000)
               + roundDouble (inject_Z (nanoseconds t) / 1000000)).

(** The timestamp of a whole second. *)
Definition atSecond (s : Z) : Timestamp :=
  {| seconds := s; nanoseconds := 0 |}.


(** ** JavaScript values and objects *)

Inductive JSValue : Type :=
  | JSUndefined
  | JSNull
  | JSBoolean (b : bool)
  | JSNumber (z : Z)
  | JSString (s : string)
  | JSTimestamp (t : Timestamp).

Abbreviation JSObject := (gmap string JSValue).

#[global] Instance JSValue_eq_dec : EqDecision JSValue.
Proof. solve_decision. Defined.

(** [o.k] : reading an absent property yields [undefined]. *)
Definition getProp (o : JSObject) (k : string) : JSValue :=
  default JSUndefined (o !! k).

Inductive JSError : Type :=
  | TypeError
  | BadAddress.   (* a dangling array reference; unreachable from the page *)

Inductive Result (A : Type) : Type :=
  | Ok (a : A)
  | Throw (e : JSError).
Arguments Ok {A} a.
Arguments Throw {A} e.

Definition bind {A B : Type} (r : Result A) (k : A -> Result B) : Result B :=
  match r with
  | Ok a => k a
  | Throw e => Throw e
  end.

Notation "x <- r ;; k" := (bind r (fun x => k))
  (at level 100, r at next level, right associativity).

(** ** Strings *)

(** [String.prototype.toLowerCase] on one code unit below 256: A-Z, and the
    Latin-1 capitals U+00C0-U+00DE except the multiplication sign U+00D7. *)
Definition lowerUnit (c : ascii) : ascii :=
  let n := nat_of_ascii c in
  if ((65 <=? n)%nat && (n <=? 90)%nat)
     || ((192 <=? n)%nat && (n <=? 222)%nat && negb (n =? 215)%nat)
  then ascii_of_nat (n + 32) else c.

Fixpoint toLowerCase (s : string) : string :=
  match s with
  | EmptyString => EmptyString
  | String c s' => String (lowerUnit c) (toLowerCase s')
  end.

(** [s.includes(t)] : [t] occurs in [s] at some position. *)
Fixpoint includes (s t : string) : bool :=
  String.prefix t s ||
  match s with
  | EmptyString => false
  | String _ s' => includes s' t
  end.

(** [v.toLowerCase()] for an arbitrary value [v]: only a string has the
    method; on [undefined]/[null] the property read itself throws and on the
    other values the call of a non-function does. *)
Definition call_toLowerCase (v : JSValue) : Result string :=
  match v with
  | JSString s => Ok (toLowerCase s)
  | _ => Throw TypeError
  end.

(** [v.toMillis()] *)
Definition call_toMillis (v : JSValue) : Result Q :=
  match v with
  | JSTimestamp t => Ok (toMillis t)
  | _ => Throw TypeError
  end.

(** [v === s] against a string [s]. *)
Definition strictEqString (v : JSValue) (s : string) : bool :=
  match v with
  | JSString t => String.eqb t s
  | _ => false
  end.

(** [x < y] and [x > y] where each side is a number or [undefined]:
    [undefined] converts to NaN and every comparison with NaN is false. *)
Definition js_lt (x y : option Z) : bool :=
  match x, y with
  | Some a, Some b => a <? b
  | _, _ => false
  end.

Definition js_gt (x y : option Z) : bool :=
  match x, y with
  | Some a, Some b => a >? b
  | _, _ => false
  end.

(** ** Array methods on element lists *)

Section ArrayElems.
Context {A : Type}.

(** [filter] calls the predicate on each element in index order; the first
    exception aborts the call. *)
Fixpoint filterM (p : A -> Result bool) (l : list A) : Result (list A) :=
  match l with
  | [] => Ok []
  | x :: l' =>
      b <- p x ;;
      r <- filterM p l' ;;
      Ok (if b then x :: r else r)
  end.

(** [sort(comparefn)].  ECMAScript leaves the algorithm open and fixes the
    result for a consistent comparator: the stable ascending arrangement.
    The model is insertion sort: [x] is placed in front of the first [y]
    with [comparefn(x, y) <= 0].  An array of length below two is returned
    without a call of the comparator.  For a comparator that is not
    consistent the arrangement is implementation-defined: an engine may
    return another one than the model, and what holds of every engine is
    that the result is an arrangement of the elements. *)
Fixpoint insertM (cmp : A -> A -> Result Q) (x : A) (l : list A)
  : Result (list A) :=
  match l with
  | [] => Ok [x]
  | y :: l' =>
      c <- cmp x y ;;
      if Qle_bool c 0 then Ok (x :: y :: l')
      else r <- insertM cmp x l' ;; Ok (y :: r)
  end.

Fixpoint sortM (cmp : A -> A -> Result Q) (l : list A) : Result (list A) :=
  match l with
  | [] => Ok []
  | x :: l' => s <- sortM cmp l' ;; insertM cmp x s
  end.

(** The same sort for a comparator that always answers, given by the sign
    of its answers. *)
Fixpoint insertBy (cmp : A -> A -> Z) (x : A) (l : list A) : list A :=
  match l with
  | [] => [x]
  | y :: l' =>
      if cmp x y <=? 0 then x :: y :: l' else y :: insertBy cmp x l'
  end.

Fixpoint sortBy (cmp : A -> A -> Z) (l : list A) : list A :=
  match l with
  | [] => []
  | x :: l' => insertBy cmp x (sortBy cmp l')
  end.

(** The order and the ties of a comparator. *)
Definition le (cmp : A -> A -> Z) (a b : A) : Prop := cmp a b <= 0.
Definition tieb (cmp : A -> A -> Z) (a b : A) : bool := cmp a b =? 0.

(** [a] occurs in [l] at an earlier position than [b]. *)
Definition before (a b : A) (l : list A) : Prop :=
  exists i j, (i < j)%nat /\ l !! i = Some a /\ l !! j = Some b.
End ArrayElems.

(** ** The store of arrays *)

Abbreviation Addr := nat.
Abbreviation Heap := (list (list JSObject)).

(** A computation on the store that may throw. *)
Definition M (A : Type) : Type := Heap -> Result A * Heap.

Definition mbind {A B : Type} (m : M A) (k : A -> M B) : M B :=
  fun h =>
    match m h with
    | (Ok a, h') => k a h'
    | (Throw e, h') => (Throw e, h')
    end.

Notation "x <~ m ;; k" := (mbind m (fun x => k))
  (at level 100, m at next level, right associativity).

(** [a.filter(p)] : a new array; the receiver is only read. *)
Definition Array_filter (a : Addr) (p : JSObject -> Result bool) : M Addr :=
  fun h =>
    match h !! a with
    | None => (Throw BadAddress, h)
    | Some xs =>
        match filterM p xs with
        | Ok ys => (Ok (List.length h), h ++ [ys])
        | Throw e => (Throw e, h)
        end
    end.

(** [a.sort(cmp)] : the receiver is permuted in place and returned.  When the
    comparator throws, the order in which the call leaves the receiver is
    implementation-defined; the model leaves it as it was. *)
Definition Array_sort (a : Addr) (cmp : JSObject -> JSObject -> Result Q)
  : M Addr :=
  fun h =>
    match h !! a with
    | None => (Throw BadAddress, h)
    | Some xs =>
        match sortM cmp xs with
        | Ok ys => (Ok a, <[a := ys]> h)
        | Throw e => (Throw e, h)
        end
    end.

(** ** types.ts *)

Definition bloodGroups : list string :=
  ["A+"; "A-"; "B+"; "B-"; "AB+"; "AB-"; "O+"; "O-"].

(** ** ViewRequestsPage: the filter/sort pipeline *)

(** [const urgencyOrder = { Urgent: 1, Moderate: 2, Low: 3 }] *)
Definition urgencyOrder : gmap string Z :=
  {[ "Urgent" := 1; "Moderate" := 2; "Low" := 3 ]}.

(** The names an object literal inherits from [Object.prototype]. *)
Definition inheritedNames : list string :=
  ["constructor"; "hasOwnProperty"; "isPrototypeOf"; "propertyIsEnumerable";
   "toLocaleString"; "toString"; "valueOf"; "__proto__";
   "__defineGetter__"; "__defineSetter__";
   "__lookupGetter__"; "__lookupSetter__"].

(** [urgencyOrder[v]] as far as [<] and [>] against a number can tell: a
    number for the three keys, and otherwise a value that makes both
    comparisons false.  A value [v] that is not a string converts to a
    property name that is none of the three keys.  For an inherited name the
    lookup yields a function or an object rather than [undefined]; against a
    number that compares like [undefined], and the comparison of two such
    values with each other is outside the model (see [lacksUrgency]). *)
Definition urgencyRank (v : JSValue) : option Z :=
  match v with
  | JSString s => urgencyOrder !! s
  | _ => None
  end.

(** The comparator handed to [sort]. *)
Definition compareRequests (a b : JSObject) : Result Q :=
  let ra := urgencyRank (getProp a "urgency") in
  let rb := urgencyRank (getProp b "urgency") in
  if js_lt ra rb then Ok (-1)%Q
  else if js_gt ra rb then Ok 1%Q
  else
    mb <- call_toMillis (getProp b "createdAt") ;;
    ma <- call_toMillis (getProp a "createdAt") ;;
    Ok (roundDouble (mb - ma)).

(** [req => bloodGroupFilter === "all" || req.bloodGroup === bloodGroupFilter] *)
Definition matchesBloodGroup (bloodGroupFilter : string) (req : JSObject)
  : Result bool :=
  Ok (String.eqb bloodGroupFilter "all"
      || strictEqString (getProp req "bloodGroup") bloodGroupFilter).

(** [req => locationFilter === "" ||
            req.location.toLowerCase().includes(locationFilter.toLowerCase())] *)
Definition matchesLocation (locationFilter : string) (req : JSObject)
  : Result bool :=
  if String.eqb locationFilter "" then Ok true
  else
    loc <- call_toLowerCase (getProp req "location") ;;
    Ok (includes loc (toLowerCase locationFilter)).

(** The body of the [useMemo]: [requests.filter(..).filter(..).sort(..)]. *)
Definition filteredRequests (requests : Addr)
    (bloodGroupFilter locationFilter : string) : M Addr :=
  a1 <~ Array_filter requests (matchesBloodGroup bloodGroupFilter) ;;
  a2 <~ Array_filter a1 (matchesLocation locationFilter) ;;
  Array_sort a2 compareRequests.

(** The two [filter] calls alone, and the [sort] call alone, on element
    lists. *)
Definition filterStage (R : list JSObject) (g l : string)
  : Result (list JSObject) :=
  r1 <- filterM (matchesBloodGroup g) R ;;
  filterM (matchesLocation l) r1.

Definition sortStage (R : list JSObject) : Result (list JSObject) :=
  sortM compareRequests R.

(** [returns h requests g l out] : run on store [h], the pipeline returns an
    array whose elements are [out]. *)
Definition returns (h : Heap) (requests : Addr) (g l : string)
    (out : list JSObject) : Prop :=
  exists a h', filteredRequests requests g l h = (Ok a, h')
               /\ h' !! a = Some out.

(** ** ViewRequestsPage: the live-query subscriber *)

(** A document of a query snapshot: [doc.id] and [doc.data()]. *)
Record QueryDocumentSnapshot : Type := {
  doc_id : string;
  doc_data : JSObject
}.

(** [{ id: doc.id, ...doc.data(), createdAt: doc.data().createdAt as Timestamp }
     as BloodRequest].  The properties are written in source order: [id], then
    every property of the payload, then [createdAt]; a later write of a name
    replaces an earlier one.  The two [as] leave the values as they are. *)
Definition toRequest (doc : QueryDocumentSnapshot) : JSObject :=
  <[ "createdAt" := getProp (doc_data doc) "createdAt" ]>
    (doc_data doc ∪ {[ "id" := JSString (doc_id doc) ]}).

(** [querySnapshot.forEach(doc => fetchedRequests.push(..))] from [[]]. *)
Definition fetchRequests (docs : list QueryDocumentSnapshot) : list JSObject :=
  fold_left (fun fetchedRequests doc => fetchedRequests ++ [toRequest doc])
            docs [].

(** [query(collection(db, "requests"), where("status", "==", "active"),
           orderBy("createdAt", "desc"))] *)
Record Query : Type := {
  q_collection : string;
  q_whereEq : string * string;
  q_orderBy : string * string
}.

Definition q : Query :=
  {| q_collection := "requests";
     q_whereEq := ("status", "active");
     q_orderBy := ("createdAt", "desc") |}.

(** The four [useState] cells. *)
Record PageState : Type := {
  requests : list JSObject;
  loading : bool;
  bloodGroupFilter : string;
  locationFilter : string
}.

Definition initialState : PageState :=
  {| requests := []; loading := true;
     bloodGroupFilter := "all"; locationFilter := "" |}.

(** What the page asks of its environment. *)
Inductive Effect : Type :=
  | Subscribe (query : Query)     (* onSnapshot(q, next, error) *)
  | Unsubscribe                   (* unsubscribe() *)
  | ConsoleError.                 (* console.error("Error fetching requests:", error) *)

(** What can happen to a mounted page. *)
Inductive Event : Type :=
  | Mount                                            (* the effect runs *)
  | Unmount                                          (* its clean-up runs *)
  | SnapshotArrived (docs : list QueryDocumentSnapshot)
  | SubscriptionFailed
  | BloodGroupSelected (value : string)
  | LocationTyped (value : string)
  | ResetClicked.

Definition setRequests (v : list JSObject) (s : PageState) : PageState :=
  {| requests := v; loading := loading s;
     bloodGroupFilter := bloodGroupFilter s;
     locationFilter := locationFilter s |}.

Definition setLoading (v : bool) (s : PageState) : PageState :=
  {| requests := requests s; loading := v;
     bloodGroupFilter := bloodGroupFilter s;
     locationFilter := locationFilter s |}.

Definition setBloodGroupFilter (v : string) (s : PageState) : PageState :=
  {| requests := requests s; loading := loading s;
     bloodGroupFilter := v;
     locationFilter := locationFilter s |}.

Definition setLocationFilter (v : string) (s : PageState) : PageState :=
  {| requests := requests s; loading := loading s;
     bloodGroupFilter := bloodGroupFilter s;
     locationFilter := v |}.

(** The snapshot callback. *)
Definition onNext (docs : list QueryDocumentSnapshot) (s : PageState)
  : PageState :=
  setLoading false (setRequests (fetchRequests docs) s).

(** The error callback. *)
Definition onError (s : PageState) : PageState * list Effect :=
  (setLoading false s, [ConsoleError]).

Definition resetFilters (s : PageState) : PageState :=
  setLocationFilter "" (setBloodGroupFilter "all" s).

Definition step (s : PageState) (ev : Event) : PageState * list Effect :=
  match ev with
  | Mount => (s, [Subscribe q])
  | Unmount => (s, [Unsubscribe])
  | SnapshotArrived docs => (onNext docs s, [])
  | SubscriptionFailed => onError s
  | BloodGroupSelected v => (setBloodGroupFilter v s, [])
  | LocationTyped v => (setLocationFilter v s, [])
  | ResetClicked => (resetFilters s, [])
  end.

Fixpoint run (s : PageState) (evs : list Event) : PageState * list Effect :=
  match evs with
  | [] => (s, [])
  | ev :: evs' =>
      let '(s1, e1) := step s ev in
      let '(s2, e2) := run s1 evs' in
      (s2, e1 ++ e2)
  end.

(** The array the memo hands to the renderer: the pipeline run on a store
    that holds the array of the [requests] cell. *)
Definition memo (s : PageState) : Result (list JSObject) :=
  match filteredRequests 0%nat (bloodGroupFilter s) (locationFilter s)
          [requests s] with
  | (Ok a, h') =>
      match h' !! a with
      | Some out => Ok out
      | None => Throw BadAddress
      end
  | (Throw e, _) => Throw e
  end.

(** A callback of the subscription: the only events that write [loading]. *)
Definition isCallback (ev : Event) : bool :=
  match ev with
  | SnapshotArrived _ | SubscriptionFailed => true
  | _ => false
  end.

Definition isSubscribe (e : Effect) : bool :=
  match e with
  | Subscribe _ => true
  | _ => false
  end.

(** ** Typed records *)

(** The fields the pipeline reads, at the types the code gives them:
    [bloodGroup: BloodGroup], [location: string], [createdAt: Timestamp] and
    an [urgency] that is a key of [urgencyOrder].  The interface
    [BloodRequest] as given declares no [urgency]; its type here is the one
    the index expression [urgencyOrder[a.urgency]] asks for. *)
Definition isBloodRequest (r : JSObject) : bool :=
  match getProp r "bloodGroup", getProp r "location", getProp r "createdAt" with
  | JSString g, JSString _, JSTimestamp _ =>
      existsb (String.eqb g) bloodGroups
      && match urgencyRank (getProp r "urgency") with
         | Some _ => true
         | None => false
         end
  | _, _, _ => false
  end.

(** A record whose [location] is a string and whose [createdAt] is a
    Timestamp; nothing is asked of its [urgency]. *)
Definition isReadable (r : JSObject) : bool :=
  match getProp r "location", getProp r "createdAt" with
  | JSString _, JSTimestamp _ => true
  | _, _ => false
  end.

(** A record without a rank: [urgencyOrder[r.urgency]] is [undefined], the
    field being absent, not a string, or a string that names no property of
    [urgencyOrder], own or inherited. *)
Definition lacksUrgency (r : JSObject) : bool :=
  match getProp r "urgency" with
  | JSString s =>
      match urgencyOrder !! s with
      | Some _ => false
      | None => negb (existsb (String.eqb s) inheritedNames)
      end
  | _ => true
  end.

Definition isMount (ev : Event) : bool :=
  match ev with
  | Mount => true
  | _ => false
  end.

(** Total readings of the two sort keys, meaningful on typed records. *)
Definition rankOf (r : JSObject) : Z :=
  default 0 (urgencyRank (getProp r "urgency")).

Definition millisOf (r : JSObject) : Q :=
  match getProp r "createdAt" with
  | JSTimestamp t => toMillis t
  | _ => 0%Q
  end.

(** The comparator on typed records, as a total function of the two keys,
    and the sign of its answer. *)
Definition answerOf (a b : JSObject) : Q :=
  if rankOf a <? rankOf b then (-1)%Q
  else if rankOf a >? rankOf b then 1%Q
  else roundDouble (millisOf b - millisOf a).

Definition cmpKey (a b : JSObject) : Z := sgnQ (answerOf a b).

(** Equal urgency and equal creation timestamp. *)
Definition tied (a b : JSObject) : bool :=
  bool_decide (getProp a "urgency" = getProp b "urgency")
  && bool_decide (getProp a "createdAt" = getProp b "createdAt").

(** The answers of the two filter predicates as booleans. *)
Definition keepsBloodGroup (g : string) (r : JSObject) : bool :=
  String.eqb g "all" || strictEqString (getProp r "bloodGroup") g.

Definition keepsLocation (l : string) (r : JSObject) : bool :=
  String.eqb l ""
  || match getProp r "location" with
     | JSString s => includes (toLowerCase s) (toLowerCase l)
     | _ => false
     end.

(** [s] contains [l] as a substring, letter case aside. *)
Definition containsIgnoringCase (s l : string) : Prop :=
  exists pre mid post,
    s = String.append pre (String.append mid post)
    /\ toLowerCase mid = toLowerCase l.

(** The records that pass both filters. *)
Definition kept (R : list JSObject) (g l : string) : list JSObject :=
  List.filter (keepsLocation l) (List.filter (keepsBloodGroup g) R).

(** Every record: the comparator of typed records is consistent on all. *)
Definition anyRecord (r : JSObject) : Prop := True.

(** ** Two statements of the specification, as predicates *)


(** As the specification has it (C10): the record made from a document has
    the document identifier as its [id] and a Timestamp as its [createdAt]. *)
Definition carriesIdAndTimestamp (doc : QueryDocumentSnapshot) : Prop :=
  getProp (toRequest doc) "id" = JSString (doc_id doc)
  /\ exists t, getProp (toRequest doc) "createdAt" = JSTimestamp t.

(** As the specification has it (C2): a run on a snapshot with a record that
    lacks a rank ends in an error. *)
Definition failsWithError (h : Heap) (requests : Addr) (g l : string) : Prop :=
  exists e h', filteredRequests requests g l h = (Throw e, h').

(** ** Sample data *)

(** The two records of the scenarios of the specification, with [t1] the
    second 100 and [t2] the second 200. *)
Definition request1 : JSObject :=
  {[ "id" := JSString "1"; "urgency" := JSString "Moderate";
     "createdAt" := JSTimestamp (atSecond 200);
     "bloodGroup" := JSString "A+"; "location" := JSString "Dhaka" ]}.

Definition request2 : JSObject :=
  {[ "id" := JSString "2"; "urgency" := JSString "Urgent";
     "createdAt" := JSTimestamp (atSecond 100);
     "bloodGroup" := JSString "O-"; "location" := JSString "Chittagong" ]}.

(** A record as it comes out of a document that was stored without an
    [urgency] field. *)
Definition request3 : JSObject :=
  {[ "id" := JSString "3"; "createdAt" := JSTimestamp (atSecond 150);
     "bloodGroup" := JSString "B+"; "location" := JSString "Sylhet" ]}.


Definition request7 : JSObject :=
  {[ "id" := JSString "7"; "urgency" := JSString "Urgent";
     "createdAt" := JSTimestamp (atSecond 100);
     "bloodGroup" := JSString "A-"; "location" := JSString "Khulna" ]}.



(** A document whose payload has a field [id] of its own and whose
    [createdAt] was stored as a number of milliseconds. *)
Definition document4 : QueryDocumentSnapshot :=
  {| doc_id := "k3Jq9";
     doc_data := {[ "id" := JSString "legacy-4";
                    "createdAt" := JSNumber 1700000000000;
                    "bloodGroup" := JSString "O+";
                    "location" := JSString "Khulna" ]} |}.

(** A document as the application writes it. *)
Definition document5 : QueryDocumentSnapshot :=
  {| doc_id := "Zx81b";
     doc_data := {[ "urgency" := JSString "Low";
                    "createdAt" := JSTimestamp (atSecond 500);
                    "bloodGroup" := JSString "AB-";
                    "location" := JSString "Rajshahi";
                    "status" := JSString "active" ]} |}.

(** A second document, written later and Urgent. *)
Definition document6 : QueryDocumentSnapshot :=
  {| doc_id := "Qm27c";
     doc_data := {[ "urgency" := JSString "Urgent";
                    "createdAt" := JSTimestamp (atSecond 600);
                    "bloodGroup" := JSString "A+";
                    "location" := JSString "Dhaka";
                    "status" := JSString "active" ]} |}.

(** ** ViewRequestsPage: what is rendered *)

(** The values of the blood-group [Select]: "all", then one item per group. *)
Definition bloodGroupOptions : list string := "all" :: bloodGroups.

(** The three alternatives of the list area.  A card is the pair of its
    [key] and the record it shows. *)
Inductive ListArea : Type :=
  | SkeletonGrid (keys : list nat)
  | CardGrid (cards : list (JSValue * JSObject))
  | NoMatches.

(** [<BloodRequestCard key={request.id} request={request} />] *)
Definition card (request : JSObject) : JSValue * JSObject :=
  (getProp request "id", request).

(** One render of the page: the memo is evaluated first, whatever [loading]
    is, and an exception of its callback is an exception of the render.
    Then [loading ? skeletons : filteredRequests.length > 0 ? cards : text],
    the skeletons being [[...Array(6)].map((_, i) => ...)], keyed [0..5]. *)
Definition render (s : PageState) : Result ListArea :=
  filteredRequests <- memo s ;;
  Ok (if loading s then SkeletonGrid (seq 0 6)
      else if (0 <? List.length filteredRequests)%nat
           then CardGrid (List.map card filteredRequests)
           else NoMatches).

Definition isSnapshot (ev : Event) : bool :=
  match ev with
  | SnapshotArrived _ => true
  | _ => false
  end.

(** The outcome of the two [filter] calls, decided beforehand: the location
    of a record is read only when a location filter is set and the record
    has passed the blood-group filter. *)
Definition isString (v : JSValue) : bool :=
  match v with
  | JSString _ => true
  | _ => false
  end.

Definition readsBadLocation (R : list JSObject) (g l : string) : bool :=
  negb (String.eqb l "")
  && existsb (fun r => keepsBloodGroup g r
                       && negb (isString (getProp r "location"))) R.

(** The records of a list that have a given urgency, in the order of the
    list. *)
Definition withUrgency (u : string) (X : list JSObject) : list JSObject :=
  List.filter (fun r => strictEqString (getProp r "urgency") u) X.

(** Newest first, the order the query asks of the server
    ([orderBy("createdAt", "desc")]), as the [toMillis()] readings show
    it. *)
Definition newestFirst (X : list JSObject) : Prop :=
  StronglySorted (fun a b => (millisOf b <= millisOf a)%Q) X.

(** ** Header.tsx *)

Module Header.

(** An entry of [navLinks]; an absent [protected] reads as false. *)
Record NavLink : Type := {
  href : string;
  label : string;
  icon : string;
  protected : bool
}.

Definition navLinks : list NavLink :=
  [ {| href := "/requests"; label := "View Requests";
       icon := "ListChecks"; protected := false |};
    {| href := "/donors"; label := "Available Donors";
       icon := "Users"; protected := false |};
    {| href := "/requests/new"; label := "Post Request";
       icon := "PlusCircle"; protected := true |};
    {| href := "/donors/register"; label := "Become a Donor";
       icon := "UserPlus"; protected := true |};
    {| href := "/ai-matcher"; label := "AI Matcher";
       icon := "Search"; protected := true |};
    {| href := "/hospitals"; label := "Hospitals";
       icon := "HospitalIcon"; protected := false |};
    {| href := "/contact"; label := "Contact Us";
       icon := "Phone"; protected := false |} ].

(** The fields of the signed-in user that the header reads; each is
    [string | null]. *)
Record User : Type := {
  email : option string;
  photoURL : option string
}.

Inductive Role : Type := RoleUser | RoleAdmin.

(** [interface UserProfile] of types.ts. *)
Record UserProfile : Type := {
  uid : string;
  profileEmail : option string;
  displayName : option string;
  role : option Role
}.

(** What [useAuth()] hands to the header ([logout] is the action of a menu
    item). *)
Record Auth : Type := {
  user : option User;
  userProfile : option UserProfile;
  loading : bool;
  isAdmin : bool
}.

(** [a || b] on values that are a string, [null] or [undefined]: the empty
    string is falsy. *)
Definition orElse (a b : option string) : option string :=
  match a with
  | Some s => if String.eqb s "" then b else a
  | None => b
  end.

(** [userProfile?.displayName] *)
Definition profileName (auth : Auth) : option string :=
  match userProfile auth with
  | Some p => displayName p
  | None => None
  end.

(** [s.split(' ')] *)
Fixpoint splitSpace (s : string) : list string :=
  match s with
  | EmptyString => [EmptyString]
  | String c s' =>
      if Ascii.eqb c " "%char then EmptyString :: splitSpace s'
      else match splitSpace s' with
           | w :: ws => String c w :: ws
           | [] => [String c EmptyString]
           end
  end.

(** [n[0]] : the first code unit, [undefined] for the empty string. *)
Definition index0 (n : string) : option string :=
  match n with
  | EmptyString => None
  | String c _ => Some (String c EmptyString)
  end.

(** [parts.join('')] : [undefined] joins as the empty string. *)
Fixpoint joinEmpty (parts : list (option string)) : string :=
  match parts with
  | [] => EmptyString
  | Some p :: rest => String.append p (joinEmpty rest)
  | None :: rest => joinEmpty rest
  end.

(** The initials of a name read in one pass: a code unit counts when it is
    not a space and stands first or right after a space. *)
Fixpoint scanInitials (atStart : bool) (s : string) : string :=
  match s with
  | EmptyString => EmptyString
  | String c s' =>
      if Ascii.eqb c " "%char then scanInitials true s'
      else if atStart then String c (scanInitials false s')
      else scanInitials false s'
  end.

(** A name without a character other than the space. *)
Fixpoint isBlank (s : string) : bool :=
  match s with
  | EmptyString => true
  | String c s' => Ascii.eqb c " "%char && isBlank s'
  end.

Section WithToUpperCase.

(** [String.prototype.toUpperCase].  Upper-casing leaves the 8-bit code units
    ([U+00FF] becomes [U+0178], the sharp s becomes two letters), so the
    function is a parameter; what is used of it is stated where it is
    used. *)
Variable toUpperCase : string -> string.

(** [getInitials] *)
Definition getInitials (name : option string) : string :=
  match name with
  | None => "U"
  | Some s =>
      if String.eqb s "" then "U"
      else
        let initials :=
          toUpperCase (joinEmpty (List.map index0 (splitSpace s))) in
        if String.eqb initials "" then "U" else initials
  end.

Inductive Variant : Type := Secondary | Ghost.

(** A rendered navigation button. *)
Record NavButton : Type := {
  nb_key : string;
  nb_variant : Variant;
  nb_href : string;
  nb_icon : string;
  nb_label : string
}.

(** The button of the current page: [variant="secondary"]. *)
Definition isSecondary (b : NavButton) : bool :=
  match nb_variant b with
  | Secondary => true
  | Ghost => false
  end.

(** The body of [navLinks.map]: [None] stands for [return null]. *)
Definition renderLink (auth : Auth) (pathname : string) (link : NavLink)
  : option NavButton :=
  if protected link && negb (bool_decide (is_Some (user auth))) && loading auth
  then None
  else if protected link && negb (bool_decide (is_Some (user auth)))
          && negb (loading auth)
  then None
  else Some {| nb_key := href link;
               nb_variant := if String.eqb pathname (href link)
                             then Secondary else Ghost;
               nb_href := href link;
               nb_icon := icon link;
               nb_label := label link |}.

(** The children of [<nav>]: React renders nothing for [null]. *)
Definition nav (auth : Auth) (pathname : string) : list NavButton :=
  omap (renderLink auth pathname) navLinks.

Inductive Action : Type :=
  | RouterPush (path : string)
  | Logout.

(** An item of the drop-down menu: its text and its [onClick]. *)
Record MenuItem : Type := {
  mi_text : string;
  mi_onClick : Action
}.

(** The area at the right of the header. *)
Inductive AccountArea : Type :=
  | Pulse
  | UserMenu (src : option string) (alt : string) (fallback : string)
             (title subtitle : option string) (items : list MenuItem)
  | LoginSignup.

Definition menuItems (auth : Auth) : list MenuItem :=
  [ {| mi_text := "Profile"; mi_onClick := RouterPush "/profile" |} ]
  ++ (if isAdmin auth
      then [ {| mi_text := "Admin Panel";
                mi_onClick := RouterPush "/admin/dashboard" |} ]
      else [])
  ++ [ {| mi_text := "Log out"; mi_onClick := Logout |} ].

(** [loading ? pulse : user ? menu : buttons] *)
Definition accountArea (auth : Auth) : AccountArea :=
  if loading auth then Pulse
  else match user auth with
       | Some u =>
           UserMenu
             (orElse (photoURL u) None)
             (default "User" (orElse (orElse (profileName auth) (email u))
                                     (Some "User")))
             (getInitials (orElse (profileName auth) (email u)))
             (orElse (profileName auth) (email u))
             (email u)
             (menuItems auth)
       | None => LoginSignup
       end.

End WithToUpperCase.

(** Upper-casing of the ASCII letters, the others left alone: what
    [toUpperCase] does on ASCII strings. *)
Definition upperAsciiUnit (c : ascii) : ascii :=
  let n := nat_of_ascii c in
  if ((97 <=? n)%nat && (n <=? 122)%nat) then ascii_of_nat (n - 32) else c.

Fixpoint upperAscii (s : string) : string :=
  match s with
  | EmptyString => EmptyString
  | String c s' => String (upperAsciiUnit c) (upperAscii s')
  end.

End Header.

(** * Properties *)

(** ** Numbers *)

(** Rounding keeps the sign: a number other than zero does not round to
    zero, the exponent being unbounded. *)
Lemma roundHalfEven_floor (a b : Z) : 0 < b -> a / b <= roundHalfEven a b.
Proof.
  intros Hb. unfold roundHalfEven.
  destruct (2 * (a mod b) ?= b); [destruct (Z.even (a / b))| |]; lia.
Qed.

Lemma floorLog2_le (n d : positive) :
  floorLog2 n d <= Z.log2 (Zpos n) - Z.log2 (Zpos d).
Proof. unfold floorLog2. destruct (reaches n d _); lia. Qed.

Lemma scaled_ge (n d : positive) (k : Z) :
  52 - (Z.log2 (Zpos n) - Z.log2 (Zpos d)) <= k ->
  Zpos d * 2 ^ Z.max (- k) 0 <= Zpos n * 2 ^ Z.max k 0.
Proof.
  intros Hk.
  pose proof (Z.log2_spec (Zpos n) (Pos2Z.is_pos n)) as [Hn _].
  pose proof (Z.log2_spec (Zpos d) (Pos2Z.is_pos d)) as [_ Hd].
  pose proof (Z.log2_nonneg (Zpos n)) as Ln.
  pose proof (Z.log2_nonneg (Zpos d)) as Ld.
  set (L := Z.log2 (Zpos n)) in *. set (D := Z.log2 (Zpos d)) in *.
  destruct (Z.le_gt_cases 0 k) as [Kp|Kn].
  - rewrite (Z.max_r (- k) 0), (Z.max_l k 0) by lia.
    rewrite Z.pow_0_r, Z.mul_1_r.
    apply Z.le_trans with (2 ^ Z.succ D); [lia|].
    apply Z.le_trans with (2 ^ L * 2 ^ k).
    + rewrite <- Z.pow_add_r by lia. apply Z.pow_le_mono_r; lia.
    + apply Z.mul_le_mono_nonneg_r; [apply Z.pow_nonneg; lia | exact Hn].
  - rewrite (Z.max_l (- k) 0), (Z.max_r k 0) by lia.
    rewrite Z.pow_0_r, Z.mul_1_r.
    apply Z.le_trans with (2 ^ L); [|exact Hn].
    apply Z.le_trans with (2 ^ Z.succ D * 2 ^ (- k)).
    + apply Z.mul_le_mono_nonneg_r; [apply Z.pow_nonneg; lia | lia].
    + rewrite <- Z.pow_add_r by lia. apply Z.pow_le_mono_r; lia.
Qed.

Lemma roundPos_pos (n d : positive) : (0 < roundPos n d)%Q.
Proof.
  unfold roundPos.
  set (k := 52 - floorLog2 n d).
  set (a := Zpos n * 2 ^ Z.max k 0). set (b := Zpos d * 2 ^ Z.max (- k) 0).
  assert (Hb : 0 < b).
  { unfold b. apply Z.mul_pos_pos; [lia|]. apply Z.pow_pos_nonneg; lia. }
  assert (Hab : b <= a).
  { apply scaled_ge. pose proof (floorLog2_le n d). lia. }
  assert (Hm : 1 <= roundHalfEven a b).
  { apply Z.le_trans with (a / b); [|apply roundHalfEven_floor, Hb].
    apply Z.div_le_lower_bound; lia. }
  rewrite Qred_correct. unfold Qlt. simpl.
  rewrite Z.mul_1_r. apply Z.mul_pos_pos; [lia|].
  apply Z.pow_pos_nonneg; lia.
Qed.

Lemma roundDouble_sign (q : Q) :
  Qcompare (roundDouble q) 0 = Qcompare q 0.
Proof.
  destruct q as [[|n|n] d]; unfold roundDouble; cbn [Qnum Qden].
  - reflexivity.
  - pose proof (roundPos_pos n d) as H.
    rewrite (proj1 (Qgt_alt _ _) H). reflexivity.
  - pose proof (roundPos_pos n d) as H.
    assert (H' : (- roundPos n d < 0)%Q).
    { apply Qopp_lt_compat in H. exact H. }
    rewrite (proj1 (Qlt_alt _ _) H'). reflexivity.
Qed.

Lemma sgnQ_compare (q : Q) :
  sgnQ q = match Qcompare q 0 with Lt => -1 | Eq => 0 | Gt => 1 end.
Proof. destruct q as [[|n|n] d]; reflexivity. Qed.

Lemma Qle_bool_sgnQ (q : Q) : Qle_bool q 0 = (sgnQ q <=? 0).
Proof.
  destruct q as [[|n|n] d]; unfold Qle_bool, sgnQ; cbn [Qnum Qden];
    rewrite Z.mul_1_r; reflexivity.
Qed.

Lemma Qcompare_minus (x y : Q) : Qcompare (x - y) 0 = Qcompare x y.
Proof.
  destruct (Qcompare_spec x y) as [H|H|H].
  - apply Qeq_alt. rewrite H. ring.
  - apply Qlt_alt. apply Qlt_minus_iff in H. apply Qlt_minus_iff.
    assert (E : (0 + - (x - y) == y + - x)%Q) by ring.
    rewrite E. exact H.
  - apply Qgt_alt. apply Qlt_minus_iff in H. exact H.
Qed.

Lemma sgnQ_sgn (q : Q) : Z.sgn (sgnQ q) = sgnQ q.
Proof. unfold sgnQ. destruct (Qnum q); reflexivity. Qed.

Lemma Qle_sgnQ (q : Q) : (q <= 0)%Q <-> sgnQ q <= 0.
Proof. rewrite <- Qle_bool_iff, Qle_bool_sgnQ. apply Z.leb_le. Qed.

Lemma roundDouble_zero (q : Q) : Qnum q = 0 -> roundDouble q = 0%Q.
Proof. intros H. unfold roundDouble. rewrite H. reflexivity. Qed.

(** The sign of a rounded difference is the comparison of its operands. *)
Lemma sgnQ_roundDouble_minus (x y : Q) :
  sgnQ (roundDouble (x - y)) =
  match Qcompare x y with Lt => -1 | Eq => 0 | Gt => 1 end.
Proof. rewrite sgnQ_compare, roundDouble_sign, Qcompare_minus. reflexivity. Qed.

(** ** The error monad *)

Lemma bind_Ok {A B : Type} (r : Result A) (k : A -> Result B) (b : B) :
  bind r k = Ok b -> exists a, r = Ok a /\ k a = Ok b.
Proof. destruct r as [a|e]; simpl; [eauto | discriminate]. Qed.

Ltac bind_inv H :=
  let a := fresh "v" in
  let Ha := fresh "Hv" in
  apply bind_Ok in H; destruct H as (a & Ha & H).

(** ** [filter] on element lists *)

Section FilterFacts.
Context {A : Type}.
Variable p : A -> Result bool.

(** When the predicate returns, [filter] is the list filter of its
    answers. *)
Lemma filterM_filter (pb : A -> bool) (l r : list A) :
  (forall x b, In x l -> p x = Ok b -> pb x = b) ->
  filterM p l = Ok r -> r = List.filter pb l.
Proof.
  revert r. induction l as [|x l IH]; intros r Hp H; simpl in *.
  - congruence.
  - bind_inv H. bind_inv H. injection H as <-.
    rewrite (Hp x v) by auto.
    rewrite (IH v0) by auto.
    reflexivity.
Qed.

End FilterFacts.

(** ** [sort] on element lists *)

Section SortFacts.
Context {A : Type}.
Variable cmpM : A -> A -> Result Q.

Lemma insertM_Permutation (x : A) (l r : list A) :
  insertM cmpM x l = Ok r -> Permutation r (x :: l).
Proof.
  revert r. induction l as [|y l IH]; intros r H; simpl in *.
  - injection H as <-. reflexivity.
  - bind_inv H. destruct (Qle_bool v 0).
    + injection H as <-. reflexivity.
    + bind_inv H. injection H as <-.
      rewrite (IH v0 Hv0). apply perm_swap.
Qed.

Lemma sortM_Permutation (l r : list A) :
  sortM cmpM l = Ok r -> Permutation r l.
Proof.
  revert r. induction l as [|x l IH]; intros r H; simpl in *.
  - injection H as <-. reflexivity.
  - bind_inv H. rewrite (insertM_Permutation _ _ _ H).
    constructor. auto.
Qed.

(** The sign of the comparator as a total function, and the sort it
    induces. *)
Variable cmp : A -> A -> Z.

Lemma insertBy_Permutation (x : A) (l : list A) :
  Permutation (insertBy cmp x l) (x :: l).
Proof.
  induction l as [|y l IH]; simpl; [reflexivity|].
  destruct (cmp x y <=? 0); [reflexivity|].
  rewrite IH. apply perm_swap.
Qed.

Lemma sortBy_Permutation (l : list A) : Permutation (sortBy cmp l) l.
Proof.
  induction l as [|x l IH]; simpl; [reflexivity|].
  rewrite insertBy_Permutation. constructor. exact IH.
Qed.

Lemma insertM_insertBy (x : A) (l : list A) :
  (forall y, In y l -> exists c, cmpM x y = Ok c /\ sgnQ c = cmp x y) ->
  insertM cmpM x l = Ok (insertBy cmp x l).
Proof.
  induction l as [|y l IH]; intros H; simpl; [reflexivity|].
  destruct (H y) as (c & Hc & Hs); [now left|].
  rewrite Hc. simpl. rewrite Qle_bool_sgnQ, Hs.
  destruct (cmp x y <=? 0); [reflexivity|].
  rewrite IH by (intros; apply H; now right). reflexivity.
Qed.

Lemma sortM_sortBy (l : list A) :
  (forall x y, In x l -> In y l ->
     exists c, cmpM x y = Ok c /\ sgnQ c = cmp x y) ->
  sortM cmpM l = Ok (sortBy cmp l).
Proof.
  induction l as [|x l IH]; intros H; simpl; [reflexivity|].
  rewrite IH by (intros; apply H; now right). simpl.
  apply insertM_insertBy. intros y Hy. apply H; [now left|].
  right. apply (Permutation_in _ (sortBy_Permutation l)). exact Hy.
Qed.

(** A comparator is consistent on a set of elements when it is a total
    preorder there: antisymmetric in sign and transitive. *)
Variable dom : A -> Prop.
Hypothesis cmp_sgn : forall a b, dom a -> dom b ->
  Z.sgn (cmp b a) = - Z.sgn (cmp a b).
Hypothesis cmp_trans : forall a b c, dom a -> dom b -> dom c ->
  cmp a b <= 0 -> cmp b c <= 0 -> cmp a c <= 0.

Lemma cmp_tie_trans (a b c : A) :
  dom a -> dom b -> dom c -> cmp a b = 0 -> cmp a c = 0 -> cmp b c = 0.
Proof.
  intros Da Db Dc Hab Hac.
  pose proof (cmp_sgn a b Da Db) as S1. rewrite Hab in S1. simpl in S1.
  pose proof (cmp_sgn a c Da Dc) as S2. rewrite Hac in S2. simpl in S2.
  apply Z.sgn_null_iff in S1, S2.
  pose proof (cmp_trans b a c Db Da Dc) as T1.
  pose proof (cmp_trans c a b Dc Da Db) as T2.
  pose proof (cmp_sgn b c Db Dc) as S3.
  assert (cmp b c <= 0) by lia.
  assert (cmp c b <= 0) by lia.
  lia.
Qed.

Lemma insertBy_sorted (x : A) (l : list A) :
  dom x -> Forall dom l ->
  StronglySorted (le cmp) l -> StronglySorted (le cmp) (insertBy cmp x l).
Proof.
  intros Dx Dl Hs. induction Hs as [|y l Hs IH Hy]; simpl.
  - repeat constructor.
  - apply Forall_cons_iff in Dl as [Dy Dl].
    destruct (cmp x y <=? 0) eqn:E.
    + apply Z.leb_le in E.
      constructor; [constructor; assumption|].
      constructor; [exact E|].
      rewrite List.Forall_forall in *. intros z Hz.
      apply (cmp_trans x y z); auto. apply Hy; auto.
    + apply Z.leb_gt in E.
      constructor; [auto|].
      rewrite List.Forall_forall. intros z Hz.
      apply (Permutation_in _ (insertBy_Permutation x l)) in Hz.
      destruct Hz as [<-|Hz].
      * pose proof (cmp_sgn x y Dx Dy). unfold le. lia.
      * rewrite List.Forall_forall in Hy. auto.
Qed.

Lemma Forall_sortBy (P : A -> Prop) (l : list A) :
  Forall P l -> Forall P (sortBy cmp l).
Proof.
  intros H. rewrite List.Forall_forall in *. intros x Hx.
  apply H. apply (Permutation_in _ (sortBy_Permutation l)). exact Hx.
Qed.

Lemma sortBy_sorted (l : list A) :
  Forall dom l -> StronglySorted (le cmp) (sortBy cmp l).
Proof.
  induction l as [|x l IH]; intros Dl; simpl; [constructor|].
  apply Forall_cons_iff in Dl as [Dx Dl].
  apply insertBy_sorted; auto using Forall_sortBy.
Qed.

(** Insertion does not disturb the elements tied with a given one. *)
Lemma insertBy_tie (z x : A) (l : list A) :
  dom z -> dom x -> Forall dom l ->
  List.filter (tieb cmp z) (insertBy cmp x l) = List.filter (tieb cmp z) (x :: l).
Proof.
  intros Dz Dx Dl. induction l as [|y l IH]; [reflexivity|].
  apply Forall_cons_iff in Dl as [Dy Dl].
  simpl. destruct (cmp x y <=? 0) eqn:E; [reflexivity|].
  apply Z.leb_gt in E. simpl. rewrite (IH Dl). simpl.
  destruct (tieb cmp z y) eqn:Ty, (tieb cmp z x) eqn:Tx; try reflexivity.
  apply Z.eqb_eq in Ty, Tx.
  pose proof (cmp_tie_trans z x y Dz Dx Dy Tx Ty). lia.
Qed.

Lemma sortBy_stable (z : A) (l : list A) :
  dom z -> Forall dom l ->
  List.filter (tieb cmp z) (sortBy cmp l) = List.filter (tieb cmp z) l.
Proof.
  intros Dz. induction l as [|x l IH]; intros Dl; [reflexivity|].
  apply Forall_cons_iff in Dl as [Dx Dl].
  simpl sortBy. rewrite insertBy_tie by auto using Forall_sortBy.
  simpl. rewrite (IH Dl). reflexivity.
Qed.

(** A sorted list is a fixed point. *)
Lemma sortBy_fix (l : list A) : StronglySorted (le cmp) l -> sortBy cmp l = l.
Proof.
  induction 1 as [|x l Hs IH Hx]; [reflexivity|].
  simpl. rewrite IH. destruct l as [|y l]; [reflexivity|].
  simpl. apply Forall_cons_iff in Hx as [Hxy _].
  unfold le in Hxy. apply Z.leb_le in Hxy. rewrite Hxy. reflexivity.
Qed.

Lemma sortBy_idem (l : list A) :
  Forall dom l -> sortBy cmp (sortBy cmp l) = sortBy cmp l.
Proof. intros Dl. apply sortBy_fix, sortBy_sorted, Dl. Qed.
Lemma cmp_refl (a : A) : dom a -> cmp a a = 0.
Proof.
  intros Da. pose proof (cmp_sgn a a Da Da) as H.
  apply Z.sgn_null_iff. lia.
Qed.

Lemma tieb_refl (a : A) : dom a -> tieb cmp a a = true.
Proof. intros Da. unfold tieb. rewrite cmp_refl by exact Da. reflexivity. Qed.

(** Two sorted lists in which the elements tied with any given one are the
    same, in the same order, are one list. *)
Lemma sorted_tie_classes_eq (l1 l2 : list A) :
  Forall dom l1 -> Forall dom l2 ->
  StronglySorted (le cmp) l1 -> StronglySorted (le cmp) l2 ->
  (forall z, dom z -> List.filter (tieb cmp z) l1 = List.filter (tieb cmp z) l2) ->
  l1 = l2.
Proof.
  clear cmpM. intros D1 D2 S1. revert l2 D2.
  induction S1 as [|x t S1 IH Hx]; intros l2 D2 S2 Hc.
  - destruct l2 as [|y s]; [reflexivity|].
    apply Forall_cons_iff in D2 as [Dy _].
    specialize (Hc y Dy). simpl in Hc.
    rewrite (tieb_refl y Dy) in Hc. discriminate.
  - apply Forall_cons_iff in D1 as [Dx Dt].
    pose proof (Hc x Dx) as Hcx. simpl in Hcx.
    rewrite (tieb_refl x Dx) in Hcx.
    destruct l2 as [|y s]; [discriminate|].
    apply Forall_cons_iff in D2 as [Dy Ds].
    inversion S2 as [|y' s' S2' Hy]; subst.
    assert (Exy : x = y).
    { pose proof (Hc y Dy) as Hcy. simpl in Hcy.
      rewrite (tieb_refl y Dy) in Hcy.
      assert (Iy : In y (x :: t)).
      { assert (I : In y (List.filter (tieb cmp y) (x :: t))).
        { simpl. rewrite Hcy. now left. }
        apply List.filter_In in I. tauto. }
      assert (Ix : In x (y :: s)).
      { assert (I : In x (List.filter (tieb cmp x) (y :: s))).
        { rewrite <- Hcx. now left. }
        apply List.filter_In in I. tauto. }
      destruct Iy as [E|Iy]; [exact E|].
      destruct Ix as [E|Ix]; [symmetry; exact E|].
      rewrite List.Forall_forall in Hx, Hy.
      pose proof (Hx y Iy) as Lxy. pose proof (Hy x Ix) as Lyx.
      unfold le in Lxy, Lyx.
      pose proof (cmp_sgn x y Dx Dy) as Sg.
      assert (Z0 : tieb cmp x y = true) by (unfold tieb; apply Z.eqb_eq; lia).
      simpl in Hcx. rewrite Z0 in Hcx. congruence. }
    subst y. f_equal. apply IH; auto.
    intros z Dz. specialize (Hc z Dz). simpl in Hc.
    destruct (tieb cmp z x); congruence.
Qed.

(** The model of [sort] does not depend on the algorithm chosen: whatever
    arrangement of [l] is sorted and keeps tied elements in their order is
    [sortBy cmp l]. *)
Lemma sortBy_unique (l l' : list A) :
  Forall dom l -> Permutation l' l -> StronglySorted (le cmp) l' ->
  (forall z, dom z -> List.filter (tieb cmp z) l' = List.filter (tieb cmp z) l) ->
  l' = sortBy cmp l.
Proof.
  clear cmpM. intros Dl Hp Hs Hc.
  apply sorted_tie_classes_eq.
  - rewrite List.Forall_forall in *. intros x Hx. apply Dl.
    apply (Permutation_in _ Hp). exact Hx.
  - apply Forall_sortBy, Dl.
  - exact Hs.
  - apply sortBy_sorted, Dl.
  - intros z Dz. rewrite Hc by exact Dz. symmetry. apply sortBy_stable; auto.
Qed.
End SortFacts.


(** ** The comparator *)

Lemma urgencyOrder_lookup (s : string) (k : Z) :
  urgencyOrder !! s = Some k <->
  (s = "Urgent" /\ k = 1) \/ (s = "Moderate" /\ k = 2) \/ (s = "Low" /\ k = 3).
Proof.
  unfold urgencyOrder.
  rewrite !lookup_insert_Some, lookup_singleton_Some.
  split.
  - intros [[<- <-]|[N1 [[<- <-]|[N2 [<- <-]]]]]; auto.
  - intros [[-> ->]|[[-> ->]|[-> ->]]]; [auto| |].
    + right. split; [discriminate|]. auto.
    + right. split; [discriminate|]. right. split; [discriminate|]. auto.
Qed.

Lemma urgencyRank_Some (v : JSValue) (k : Z) :
  urgencyRank v = Some k <->
  (v = JSString "Urgent" /\ k = 1) \/ (v = JSString "Moderate" /\ k = 2)
  \/ (v = JSString "Low" /\ k = 3).
Proof.
  destruct v; simpl; try (split; [discriminate | intros [[? _]|[[? _]|[? _]]]; discriminate]).
  rewrite urgencyOrder_lookup. split.
  - intros [[-> ->]|[[-> ->]|[-> ->]]]; auto.
  - intros [[[= ->] ->]|[[[= ->] ->]|[[= ->] ->]]]; auto.
Qed.

(** A typed record, field by field. *)
Lemma isBloodRequest_fields (r : JSObject) :
  isBloodRequest r = true ->
  exists g loc m k,
    getProp r "bloodGroup" = JSString g /\ In g bloodGroups
    /\ getProp r "location" = JSString loc
    /\ getProp r "createdAt" = JSTimestamp m
    /\ urgencyRank (getProp r "urgency") = Some k.
Proof.
  unfold isBloodRequest. intros H.
  destruct (getProp r "bloodGroup") as [| | | |g|]; try discriminate.
  destruct (getProp r "location") as [| | | |loc|]; try discriminate.
  destruct (getProp r "createdAt") as [| | | | |m]; try discriminate.
  apply andb_prop in H as [Hg Hk].
  destruct (urgencyRank (getProp r "urgency")) as [k|]; [|discriminate].
  exists g, loc, m, k. repeat split; auto.
  apply existsb_exists in Hg as (g' & Hin & E).
  apply String.eqb_eq in E. subst g'. exact Hin.
Qed.

Lemma compareRequests_typed (a b : JSObject) :
  isBloodRequest a = true -> isBloodRequest b = true ->
  compareRequests a b = Ok (answerOf a b).
Proof.
  intros Ha Hb.
  destruct (isBloodRequest_fields a Ha) as (ga & la & ma & ka & _ & _ & _ & Hma & Hka).
  destruct (isBloodRequest_fields b Hb) as (gb & lb & mb & kb & _ & _ & _ & Hmb & Hkb).
  unfold compareRequests, answerOf, rankOf, millisOf.
  rewrite Hka, Hkb, Hma, Hmb. simpl.
  destruct (ka <? kb); [reflexivity|].
  destruct (ka >? kb); reflexivity.
Qed.

(** The sign of the answer: the ranks decide, and between equal ranks the
    comparison of the two [toMillis()] readings. *)
Lemma cmpKey_unfold (a b : JSObject) :
  cmpKey a b =
  if rankOf a <? rankOf b then -1
  else if rankOf a >? rankOf b then 1
  else match Qcompare (millisOf b) (millisOf a) with
       | Lt => -1
       | Eq => 0
       | Gt => 1
       end.
Proof.
  unfold cmpKey, answerOf.
  destruct (rankOf a <? rankOf b); [reflexivity|].
  destruct (rankOf a >? rankOf b); [reflexivity|].
  apply sgnQ_roundDouble_minus.
Qed.

Lemma cmpKey_sgn (a b : JSObject) : Z.sgn (cmpKey b a) = - Z.sgn (cmpKey a b).
Proof.
  rewrite !cmpKey_unfold, !Z.gtb_ltb.
  rewrite <- (Qcompare_antisym (millisOf b) (millisOf a)).
  destruct (Z.ltb_spec (rankOf a) (rankOf b)), (Z.ltb_spec (rankOf b) (rankOf a));
    try reflexivity; try lia.
  destruct (Qcompare (millisOf b) (millisOf a)); reflexivity.
Qed.

Lemma cmpKey_le (a b : JSObject) :
  cmpKey a b <= 0 <->
  rankOf a < rankOf b
  \/ (rankOf a = rankOf b /\ (millisOf b <= millisOf a)%Q).
Proof.
  rewrite cmpKey_unfold, Z.gtb_ltb.
  destruct (Z.ltb_spec (rankOf a) (rankOf b)) as [L|L]; [split; [auto | lia]|].
  destruct (Z.ltb_spec (rankOf b) (rankOf a)) as [G|G].
  { split; [lia | intros [?|[? _]]; lia]. }
  destruct (Qcompare_spec (millisOf b) (millisOf a)) as [E|E|E].
  - split; [|lia]. intros _. right. split; [lia|]. rewrite E. apply Qle_refl.
  - split; [|lia]. intros _. right. split; [lia|]. apply Qlt_le_weak, E.
  - split; [lia|]. intros [?|[_ N]]; [lia|].
    destruct (Qlt_not_le _ _ E N).
Qed.

Lemma cmpKey_trans (a b c : JSObject) :
  cmpKey a b <= 0 -> cmpKey b c <= 0 -> cmpKey a c <= 0.
Proof.
  rewrite !cmpKey_le.
  intros [H1|[H1 M1]] [H2|[H2 M2]]; try (left; lia).
  right. split; [lia|]. apply (Qle_trans _ _ _ M2 M1).
Qed.

Lemma cmpKey_zero (a b : JSObject) :
  cmpKey a b = 0 <->
  rankOf a = rankOf b /\ (millisOf a == millisOf b)%Q.
Proof.
  rewrite cmpKey_unfold, Z.gtb_ltb.
  destruct (Z.ltb_spec (rankOf a) (rankOf b)) as [L|L]; [split; [lia | intros [? _]; lia]|].
  destruct (Z.ltb_spec (rankOf b) (rankOf a)) as [G|G].
  { split; [lia | intros [? _]; lia]. }
  destruct (Qcompare_spec (millisOf b) (millisOf a)) as [E|E|E].
  - split; [|reflexivity]. intros _. split; [lia|]. symmetry. exact E.
  - split; [lia|]. intros [_ N]. rewrite N in E. destruct (Qlt_irrefl _ E).
  - split; [lia|]. intros [_ N]. rewrite N in E. destruct (Qlt_irrefl _ E).
Qed.

(** On typed records, equality of the two fields is a tie of the
    comparator.  (Not conversely: two timestamps can differ and read the
    same number of milliseconds.) *)
Lemma tied_tieb (a b : JSObject) :
  isBloodRequest a = true -> isBloodRequest b = true ->
  tied a b = true -> tieb cmpKey a b = true.
Proof.
  intros Ha Hb.
  destruct (isBloodRequest_fields a Ha) as (ga & la & ma & ka & _ & _ & _ & Hma & Hka).
  destruct (isBloodRequest_fields b Hb) as (gb & lb & mb & kb & _ & _ & _ & Hmb & Hkb).
  unfold tied, tieb.
  rewrite andb_true_iff, !bool_decide_eq_true, Z.eqb_eq, cmpKey_zero.
  unfold rankOf, millisOf. rewrite Hma, Hmb, Hka, Hkb. simpl.
  apply urgencyRank_Some in Hka, Hkb.
  intros [Hu [= ->]]. split; [|reflexivity].
  rewrite Hu in Hka.
  destruct Hka as [[E1 ->]|[[E1 ->]|[E1 ->]]],
           Hkb as [[E2 ->]|[[E2 ->]|[E2 ->]]];
    try reflexivity; rewrite E1 in E2; discriminate.
Qed.

(** ** Strings *)

Lemma append_cons (c : ascii) (a b : string) :
  String.append (String c a) b = String c (String.append a b).
Proof. reflexivity. Qed.

Lemma append_empty (b : string) : String.append EmptyString b = b.
Proof. reflexivity. Qed.

Lemma prefix_spec (t s : string) :
  String.prefix t s = true <-> exists post, s = String.append t post.
Proof.
  revert s. induction t as [|c t IH]; intros s.
  - split; [intros _; exists s; reflexivity | intros _; destruct s; reflexivity].
  - destruct s as [|d s]; simpl.
    + split; [discriminate | intros [post H]; discriminate].
    + destruct (ascii_dec c d) as [->|N].
      * rewrite IH. split; intros [post H]; exists post;
          rewrite append_cons in *; congruence.
      * split; [discriminate | intros [post H]; rewrite append_cons in H; congruence].
Qed.

Lemma includes_spec (s t : string) :
  includes s t = true <->
  exists pre post, s = String.append pre (String.append t post).
Proof.
  induction s as [|c s IH].
  - change (includes EmptyString t) with (String.prefix t EmptyString || false).
    rewrite orb_false_r, prefix_spec. split.
    + intros [post H]. exists EmptyString, post. exact H.
    + intros (pre & post & H). destruct pre; [eauto | discriminate].
  - change (includes (String c s) t)
      with (String.prefix t (String c s) || includes s t).
    rewrite orb_true_iff, prefix_spec, IH. split.
    + intros [[post H]|(pre & post & H)].
      * exists EmptyString, post. exact H.
      * exists (String c pre), post. rewrite append_cons. congruence.
    + intros (pre & post & H). destruct pre as [|d pre].
      * left. rewrite append_empty in H. eauto.
      * right. exists pre, post. rewrite append_cons in H. congruence.
Qed.

Lemma toLowerCase_append (a b : string) :
  toLowerCase (String.append a b)
  = String.append (toLowerCase a) (toLowerCase b).
Proof.
  induction a as [|c a IH]; [reflexivity|].
  rewrite append_cons. simpl. rewrite append_cons. congruence.
Qed.

Lemma toLowerCase_split (s u v : string) :
  toLowerCase s = String.append u v ->
  exists a b, s = String.append a b /\ toLowerCase a = u /\ toLowerCase b = v.
Proof.
  revert s. induction u as [|c u IH]; intros s H.
  - exists EmptyString, s. auto.
  - rewrite append_cons in H.
    destruct s as [|d s]; simpl in H; [discriminate|].
    injection H as Hc H. destruct (IH s H) as (a & b & -> & <- & <-).
    exists (String d a), b. simpl. rewrite Hc. auto.
Qed.

(** The test of the location filter is containment up to letter case. *)
Lemma includes_toLowerCase (s l : string) :
  includes (toLowerCase s) (toLowerCase l) = true <-> containsIgnoringCase s l.
Proof.
  rewrite includes_spec. unfold containsIgnoringCase. split.
  - intros (pre & post & H).
    apply toLowerCase_split in H as (a & b & -> & <- & H).
    apply toLowerCase_split in H as (m & c & -> & Hm & <-).
    exists a, m, c. auto.
  - intros (pre & mid & post & -> & H).
    exists (toLowerCase pre), (toLowerCase post).
    rewrite !toLowerCase_append. congruence.
Qed.

Example dha_in_Dhaka : containsIgnoringCase "Dhaka" "dha".
Proof. apply includes_toLowerCase. reflexivity. Qed.

(** ** The two predicates *)

Lemma matchesBloodGroup_keeps (g : string) (r : JSObject) :
  matchesBloodGroup g r = Ok (keepsBloodGroup g r).
Proof. reflexivity. Qed.

Lemma matchesLocation_keeps (l : string) (r : JSObject) (b : bool) :
  matchesLocation l r = Ok b -> keepsLocation l r = b.
Proof.
  unfold matchesLocation, keepsLocation.
  destruct (String.eqb l ""); simpl; [congruence|].
  destruct (getProp r "location"); simpl; congruence.
Qed.

Lemma matchesLocation_typed (l : string) (r : JSObject) :
  isBloodRequest r = true -> matchesLocation l r = Ok (keepsLocation l r).
Proof.
  intros H. destruct (isBloodRequest_fields r H) as (_ & loc & _ & _ & _ & _ & Hl & _).
  unfold matchesLocation, keepsLocation. rewrite Hl.
  destruct (String.eqb l ""); reflexivity.
Qed.

Lemma keepsBloodGroup_true (g : string) (r : JSObject) :
  keepsBloodGroup g r = true <-> g = "all" \/ getProp r "bloodGroup" = JSString g.
Proof.
  unfold keepsBloodGroup, strictEqString.
  rewrite orb_true_iff, String.eqb_eq.
  destruct (getProp r "bloodGroup"); try (split; intros [?|?]; auto; discriminate).
  rewrite String.eqb_eq. split; (intros [?|?]; [left; assumption | right; congruence]).
Qed.

Lemma keepsLocation_true (l : string) (r : JSObject) :
  keepsLocation l r = true <->
  l = "" \/ exists loc, getProp r "location" = JSString loc
                        /\ containsIgnoringCase loc l.
Proof.
  unfold keepsLocation. rewrite orb_true_iff, String.eqb_eq.
  destruct (getProp r "location") as [| | | |loc|];
    try (split; intros [?|H]; auto; [discriminate | destruct H as (? & ? & _); discriminate]).
  rewrite includes_toLowerCase. split; intros [?|H]; auto.
  - right. eauto.
  - right. destruct H as (loc' & [= <-] & H). exact H.
Qed.

(** ** The pipeline on the store *)

Lemma sortM_total {A : Type} (cmpM : A -> A -> Result Q) (l : list A) :
  (forall x y, In x l -> In y l -> exists c, cmpM x y = Ok c) ->
  exists r, sortM cmpM l = Ok r.
Proof.
  induction l as [|x l IH]; intros H; simpl; [eauto|].
  destruct IH as [s Hs]; [intros; apply H; now right|].
  rewrite Hs. simpl.
  assert (Hin : forall y, In y s -> In y l)
    by (intros y; apply Permutation_in, (sortM_Permutation _ _ _ Hs)).
  clear Hs. induction s as [|y s IHs]; simpl; [eauto|].
  destruct (H x y) as [c ->]; [now left | right; apply Hin; now left |].
  simpl. destruct (Qle_bool c 0); [eauto|].
  destruct IHs as [r ->]; [intros; apply Hin; now right|]. simpl. eauto.
Qed.

Lemma Array_filter_run (h : Heap) (a : Addr) (p : JSObject -> Result bool)
    (xs : list JSObject) :
  h !! a = Some xs ->
  Array_filter a p h
  = match filterM p xs with
    | Ok ys => (Ok (List.length h), h ++ [ys])
    | Throw e => (Throw e, h)
    end.
Proof. intros H. unfold Array_filter. rewrite H. reflexivity. Qed.

Lemma Array_sort_last (h : Heap) (xs : list JSObject)
    (cmp : JSObject -> JSObject -> Result Q) :
  Array_sort (List.length h) cmp (h ++ [xs])
  = match sortM cmp xs with
    | Ok ys => (Ok (List.length h), h ++ [ys])
    | Throw e => (Throw e, h ++ [xs])
    end.
Proof.
  unfold Array_sort.
  rewrite (list_lookup_middle h [] xs (List.length h) eq_refl).
  destruct (sortM cmp xs) as [ys|e]; [|reflexivity].
  rewrite insert_app_r_alt by lia.
  rewrite Nat.sub_diag. reflexivity.
Qed.

(** The pipeline on a store, outcome by outcome: each [filter] allocates an
    array behind the store and the [sort] rearranges the second of them. *)
Lemma filteredRequests_eq (h : Heap) (a : Addr) (g l : string)
    (R : list JSObject) :
  h !! a = Some R ->
  filteredRequests a g l h
  = match filterM (matchesBloodGroup g) R with
    | Throw e => (Throw e, h)
    | Ok r1 =>
        match filterM (matchesLocation l) r1 with
        | Throw e => (Throw e, h ++ [r1])
        | Ok kept =>
            match sortM compareRequests kept with
            | Throw e => (Throw e, h ++ [r1; kept])
            | Ok out => (Ok (S (List.length h)), h ++ [r1; out])
            end
        end
    end.
Proof.
  intros Ha. unfold filteredRequests, mbind.
  rewrite (Array_filter_run h a _ R Ha).
  destruct (filterM (matchesBloodGroup g) R) as [r1|e]; [|reflexivity].
  rewrite (Array_filter_run (h ++ [r1]) (List.length h) _ r1)
    by (apply list_lookup_middle; reflexivity).
  destruct (filterM (matchesLocation l) r1) as [kept|e]; [|reflexivity].
  rewrite Array_sort_last.
  assert (E : List.length (h ++ [r1]) = S (List.length h))
    by (rewrite length_app; simpl; lia).
  rewrite E.
  destruct (sortM compareRequests kept); rewrite <- app_assoc; reflexivity.
Qed.

Lemma filteredRequests_dangling (h : Heap) (a : Addr) (g l : string) :
  h !! a = None -> filteredRequests a g l h = (Throw BadAddress, h).
Proof.
  intros Ha. unfold filteredRequests, mbind, Array_filter. rewrite Ha.
  reflexivity.
Qed.

Lemma filteredRequests_run (h : Heap) (a : Addr) (g l : string)
    (R r1 kept out : list JSObject) :
  h !! a = Some R ->
  filterM (matchesBloodGroup g) R = Ok r1 ->
  filterM (matchesLocation l) r1 = Ok kept ->
  sortM compareRequests kept = Ok out ->
  filteredRequests a g l h = (Ok (S (List.length h)), h ++ [r1; out]).
Proof.
  intros Ha H1 H2 H3. rewrite (filteredRequests_eq h a g l R Ha), H1, H2, H3.
  reflexivity.
Qed.

(** Every run, successful or not, only extends the store; a returned array
    is the last of the new ones. *)
Lemma filteredRequests_extends (h h' : Heap) (a : Addr) (g l : string)
    (res : Result Addr) :
  filteredRequests a g l h = (res, h') ->
  exists extra, h' = h ++ extra
    /\ forall b, res = Ok b ->
         exists R r1 kept out,
           h !! a = Some R
           /\ filterM (matchesBloodGroup g) R = Ok r1
           /\ filterM (matchesLocation l) r1 = Ok kept
           /\ sortM compareRequests kept = Ok out
           /\ b = S (List.length h) /\ extra = [r1; out].
Proof.
  destruct (h !! a) as [R|] eqn:Ha.
  2:{ rewrite filteredRequests_dangling by exact Ha.
      intros [= <- <-]. exists []. rewrite app_nil_r.
      split; [reflexivity | discriminate]. }
  rewrite (filteredRequests_eq h a g l R Ha).
  destruct (filterM (matchesBloodGroup g) R) as [r1|e] eqn:H1.
  2:{ intros [= <- <-]. exists []. rewrite app_nil_r.
      split; [reflexivity | discriminate]. }
  destruct (filterM (matchesLocation l) r1) as [kept|e] eqn:H2.
  2:{ intros [= <- <-]. exists [r1]. split; [reflexivity | discriminate]. }
  destruct (sortM compareRequests kept) as [out|e] eqn:H3.
  - intros [= <- <-]. exists [r1; out]. split; [reflexivity|].
    intros b [= <-]. exists R, r1, kept, out. auto 10.
  - intros [= <- <-]. exists [r1; kept]. split; [reflexivity | discriminate].
Qed.

Lemma returns_inv (h : Heap) (a : Addr) (g l : string) (out : list JSObject) :
  returns h a g l out ->
  exists R, h !! a = Some R
    /\ sortM compareRequests
         (List.filter (keepsLocation l) (List.filter (keepsBloodGroup g) R))
       = Ok out.
Proof.
  intros (b & h' & Hrun & Hout).
  apply filteredRequests_extends in Hrun as (extra & -> & Hb).
  destruct (Hb b eq_refl) as (R & r1 & kept & out' & Ha & H1 & H2 & H3 & -> & ->).
  exists R. split; [exact Ha|].
  assert (L : (h ++ [r1; out']) !! S (List.length h) = Some out').
  { change (h ++ [r1; out']) with (h ++ [r1] ++ [out']).
    rewrite app_assoc. apply list_lookup_middle.
    rewrite length_app. simpl. lia. }
  rewrite L in Hout. injection Hout as <-.
  apply (filterM_filter _ (keepsBloodGroup g)) in H1.
  2:{ intros x b _. rewrite matchesBloodGroup_keeps. congruence. }
  apply (filterM_filter _ (keepsLocation l)) in H2.
  2:{ intros x b _. apply matchesLocation_keeps. }
  subst. exact H3.
Qed.

(** ** The pipeline on typed records *)

Lemma filterM_pure {A : Type} (p : A -> Result bool) (pb : A -> bool)
    (l : list A) :
  (forall x, In x l -> p x = Ok (pb x)) ->
  filterM p l = Ok (List.filter pb l).
Proof.
  induction l as [|x l IH]; intros H; simpl; [reflexivity|].
  rewrite H by now left. simpl.
  rewrite IH by (intros; apply H; now right). simpl.
  destruct (pb x); reflexivity.
Qed.

Lemma forallb_In {A : Type} (f : A -> bool) (l : list A) (x : A) :
  forallb f l = true -> In x l -> f x = true.
Proof. intros H. apply (proj1 (forallb_forall f l) H). Qed.

Lemma forallb_filter {A : Type} (f k : A -> bool) (l : list A) :
  forallb f l = true -> forallb f (List.filter k l) = true.
Proof.
  intros H. apply forallb_forall. intros x Hx.
  apply List.filter_In in Hx as [Hx _]. eapply forallb_In; eauto.
Qed.

Lemma filter_all {A : Type} (f : A -> bool) (l : list A) :
  (forall x, f x = true) -> List.filter f l = l.
Proof.
  intros H. induction l as [|x l IH]; simpl; [reflexivity|].
  rewrite H, IH. reflexivity.
Qed.

Lemma filter_andb {A : Type} (p p' : A -> bool) (l : list A) :
  List.filter p' (List.filter p l) = List.filter (fun x => p x && p' x) l.
Proof.
  induction l as [|x l IH]; simpl; [reflexivity|].
  destruct (p x); simpl; [destruct (p' x)|]; rewrite IH; reflexivity.
Qed.

Lemma filter_narrower {A : Type} (p p' : A -> bool) (l : list A) :
  (forall x, In x l -> p' x = true -> p x = true) ->
  List.filter p' (List.filter p l) = List.filter p' l.
Proof.
  intros H. rewrite filter_andb. apply List.filter_ext_in. intros x Hx.
  destruct (p' x) eqn:E; [rewrite (H x Hx E)|rewrite andb_false_r]; reflexivity.
Qed.

Lemma kept_forallb (f : JSObject -> bool) (R : list JSObject) (g l : string) :
  forallb f R = true -> forallb f (kept R g l) = true.
Proof. intros H. unfold kept. auto using forallb_filter. Qed.

Lemma kept_typed (R : list JSObject) (g l : string) :
  forallb isBloodRequest R = true -> forallb isBloodRequest (kept R g l) = true.
Proof. apply kept_forallb. Qed.

Lemma filterStage_typed (R : list JSObject) (g l : string) :
  forallb isBloodRequest R = true -> filterStage R g l = Ok (kept R g l).
Proof.
  intros H. unfold filterStage.
  rewrite (filterM_pure _ (keepsBloodGroup g)) by reflexivity. simpl.
  apply filterM_pure. intros x Hx. apply matchesLocation_typed.
  eapply forallb_In; [apply forallb_filter, H | exact Hx].
Qed.

Lemma sortStage_typed (R : list JSObject) :
  forallb isBloodRequest R = true -> sortStage R = Ok (sortBy cmpKey R).
Proof.
  intros H. apply sortM_sortBy. intros x y Hx Hy.
  exists (answerOf x y). split; [|reflexivity].
  apply compareRequests_typed; eapply forallb_In; eauto.
Qed.

(** On a snapshot of typed records the pipeline returns, and what it returns
    is the consistent sort of the records kept. *)
Lemma filteredRequests_typed (h : Heap) (a : Addr) (R : list JSObject)
    (g l : string) :
  h !! a = Some R -> forallb isBloodRequest R = true ->
  returns h a g l (sortBy cmpKey (kept R g l)).
Proof.
  intros Ha HR.
  pose proof (filterStage_typed R g l HR) as HF. unfold filterStage in HF.
  rewrite (filterM_pure _ (keepsBloodGroup g)) in HF by reflexivity.
  simpl in HF.
  exists (S (List.length h)), (h ++ [List.filter (keepsBloodGroup g) R;
                                    sortBy cmpKey (kept R g l)]).
  split.
  - eapply filteredRequests_run; eauto.
    + apply filterM_pure. reflexivity.
    + apply sortStage_typed, kept_typed, HR.
  - change (h ++ [List.filter (keepsBloodGroup g) R; sortBy cmpKey (kept R g l)])
      with (h ++ [List.filter (keepsBloodGroup g) R] ++ [sortBy cmpKey (kept R g l)]).
    rewrite app_assoc. apply list_lookup_middle.
    rewrite length_app. simpl. lia.
Qed.

Lemma sortKey_sorted (l : list JSObject) :
  StronglySorted (le cmpKey) (sortBy cmpKey l).
Proof.
  apply (sortBy_sorted cmpKey anyRecord).
  - intros a b _ _. apply cmpKey_sgn.
  - intros a b c _ _ _. apply cmpKey_trans.
  - apply List.Forall_forall. intros x _. exact I.
Qed.

Lemma sortKey_stable (z : JSObject) (l : list JSObject) :
  List.filter (tieb cmpKey z) (sortBy cmpKey l) = List.filter (tieb cmpKey z) l.
Proof.
  apply (sortBy_stable cmpKey anyRecord).
  - intros a b _ _. apply cmpKey_sgn.
  - intros a b c _ _ _. apply cmpKey_trans.
  - exact I.
  - apply List.Forall_forall. intros x _. exact I.
Qed.

Lemma sortKey_idem (l : list JSObject) :
  sortBy cmpKey (sortBy cmpKey l) = sortBy cmpKey l.
Proof.
  apply (sortBy_idem cmpKey anyRecord).
  - intros a b _ _. apply cmpKey_sgn.
  - intros a b c _ _ _. apply cmpKey_trans.
  - apply List.Forall_forall. intros x _. exact I.
Qed.

(** On typed records the model of [sort] is the only possible one: an
    arrangement that is sorted by the comparator and keeps tied records in
    their order is the one [sortBy] computes. *)
Lemma sortKey_unique (l l' : list JSObject) :
  Permutation l' l ->
  StronglySorted (le cmpKey) l' ->
  (forall z, List.filter (tieb cmpKey z) l' = List.filter (tieb cmpKey z) l) ->
  l' = sortBy cmpKey l.
Proof.
  intros Hp Hs Hc.
  apply (sortBy_unique cmpKey anyRecord).
  - intros a b _ _. apply cmpKey_sgn.
  - intros a b c _ _ _. apply cmpKey_trans.
  - apply List.Forall_forall. intros x _. exact I.
  - exact Hp.
  - exact Hs.
  - intros z _. apply Hc.
Qed.



(** ** Relative order *)

Lemma before_split {A : Type} (a b : A) (l : list A) :
  before a b l <-> exists l1 l2 l3, l = l1 ++ a :: l2 ++ b :: l3.
Proof.
  split.
  - intros (i & j & Hij & Hi & Hj).
    exists (take i l), (take (j - S i) (drop (S i) l)),
           (drop (S (j - S i)) (drop (S i) l)).
    rewrite <- (take_drop_middle l i a Hi) at 1. f_equal. f_equal.
    symmetry. apply take_drop_middle.
    rewrite lookup_drop. replace (S i + (j - S i))%nat with j by lia. exact Hj.
  - intros (l1 & l2 & l3 & ->).
    exists (List.length l1), (List.length l1 + S (List.length l2))%nat.
    split; [lia|]. split.
    + apply list_lookup_middle. reflexivity.
    + rewrite lookup_app_r by lia.
      replace (List.length l1 + S (List.length l2) - List.length l1)%nat
        with (S (List.length l2)) by lia.
      simpl. apply list_lookup_middle. reflexivity.
Qed.

Lemma filter_cons_inv {A : Type} (P : A -> bool) (l u v : list A) (a : A) :
  List.filter P l = u ++ a :: v ->
  exists l1 l2, l = l1 ++ a :: l2
                /\ List.filter P l1 = u /\ List.filter P l2 = v.
Proof.
  revert u. induction l as [|x l IH]; intros u H; simpl in H.
  - destruct u; discriminate.
  - destruct (P x) eqn:Px.
    + destruct u as [|y u]; simpl in H; injection H as -> H.
      * exists [], l. simpl. auto.
      * destruct (IH u H) as (l1 & l2 & -> & <- & <-).
        exists (y :: l1), l2. simpl. rewrite Px. auto.
    + destruct (IH u H) as (l1 & l2 & -> & <- & <-).
      exists (x :: l1), l2. simpl. rewrite Px. auto.
Qed.

Lemma before_filter {A : Type} (P : A -> bool) (a b : A) (l : list A) :
  P a = true -> P b = true -> before a b l -> before a b (List.filter P l).
Proof.
  intros Pa Pb. rewrite !before_split. intros (l1 & l2 & l3 & ->).
  exists (List.filter P l1), (List.filter P l2), (List.filter P l3).
  rewrite List.filter_app. simpl. rewrite Pa.
  rewrite List.filter_app. simpl. rewrite Pb. reflexivity.
Qed.

Lemma filter_before {A : Type} (P : A -> bool) (a b : A) (l : list A) :
  before a b (List.filter P l) -> before a b l.
Proof.
  rewrite !before_split. intros (u & v & w & H).
  apply filter_cons_inv in H as (l1 & l2 & -> & _ & H).
  apply filter_cons_inv in H as (l3 & l4 & -> & _ & _).
  eauto.
Qed.

(** ** The scenarios *)

Example scenario1 :
  filteredRequests 0%nat "all" "" [[request1; request2]]
  = (Ok 2%nat, [[request1; request2]; [request1; request2]; [request2; request1]]).
Proof. reflexivity. Qed.

Example scenario2 :
  filteredRequests 0%nat "A+" "" [[request1; request2]]
  = (Ok 2%nat, [[request1; request2]; [request1]; [request1]]).
Proof. reflexivity. Qed.

Example scenario3 :
  filteredRequests 0%nat "all" "dha" [[request1; request2]]
  = (Ok 2%nat, [[request1; request2]; [request1; request2]; [request1]]).
Proof. reflexivity. Qed.

(** Scenario 4: an empty first snapshot ends loading with nothing to show. *)
Example scenario4 :
  loading (fst (run initialState [Mount; SnapshotArrived []])) = false
  /\ memo (fst (run initialState [Mount; SnapshotArrived []])) = Ok [].
Proof. split; reflexivity. Qed.

(** Scenario 5: an error after the first snapshot leaves the records in
    place. *)
Example scenario5 :
  let s := fst (run initialState
                  [Mount; SnapshotArrived [document5]; SubscriptionFailed]) in
  loading s = false /\ requests s = [toRequest document5].
Proof. split; reflexivity. Qed.

Example typed12 : forallb isBloodRequest [request1; request2] = true.
Proof. reflexivity. Qed.

(** * The claims *)

(** Two timestamps a nanosecond apart read the same number of milliseconds,
    and so do two a microsecond apart in the year 2603; a microsecond apart
    today they read different numbers. *)
Example readings_a_nanosecond_apart :
  toMillis {| seconds := 1700000000; nanoseconds := 1 |}
  = toMillis {| seconds := 1700000000; nanoseconds := 0 |}
  /\ toMillis {| seconds := 20000000000; nanoseconds := 1000 |}
     = toMillis {| seconds := 20000000000; nanoseconds := 0 |}
  /\ (toMillis {| seconds := 1700000000; nanoseconds := 0 |}
      < toMillis {| seconds := 1700000000; nanoseconds := 1000 |})%Q.
Proof. repeat split; vm_compute; reflexivity. Qed.




(** C3. Whatever the snapshot, the blood-group filter and the location
    filter: every record the pipeline returns is a record of the snapshot,
    its blood group is the filter's unless the filter is "all", and its
    location contains the location filter up to letter case unless that
    filter is empty.  On typed records the pipeline does return. *)
Theorem filter_sound (h : Heap) (requests : Addr) (R : list JSObject)
    (g l : string) :
  h !! requests = Some R ->
  (forallb isBloodRequest R = true -> exists out, returns h requests g l out)
  /\ (forall out, returns h requests g l out ->
        forall r, In r out ->
          In r R
          /\ (g = "all" \/ getProp r "bloodGroup" = JSString g)
          /\ (l = "" \/ exists loc, getProp r "location" = JSString loc
                                    /\ containsIgnoringCase loc l)).
Proof.
  intros Ha. split.
  - intros HR. eexists. apply filteredRequests_typed; eassumption.
  - intros out Hout r Hr.
    apply returns_inv in Hout as (R' & Ha' & Hs).
    rewrite Ha in Ha'. injection Ha' as <-.
    apply (Permutation_in _ (sortM_Permutation _ _ _ Hs)) in Hr.
    apply List.filter_In in Hr as [Hr Hl].
    apply List.filter_In in Hr as [Hr Hg].
    split; [exact Hr|]. split.
    + apply keepsBloodGroup_true, Hg.
    + apply keepsLocation_true, Hl.
Qed.

Lemma filter_sound_witness :
  exists out, returns [[request1; request2]] 0%nat "A+" "dha" out.
Proof.
  destruct (filter_sound [[request1; request2]] 0%nat
              [request1; request2] "A+" "dha") as [Htotal _].
  - reflexivity.
  - apply Htotal. vm_compute. reflexivity.
Defined.

(** C6. The sort is stable under ties.  On a snapshot of typed records, for
    each record [x] the records with the urgency and the creation timestamp
    of [x] come out of the pipeline in the order in which they stand among
    the records that pass the filters; in particular two such records that
    pass the filters keep the relative order they have in the snapshot. *)
Theorem sort_stable_under_ties (h : Heap) (requests : Addr)
    (R : list JSObject) (g l : string) :
  h !! requests = Some R ->
  forallb isBloodRequest R = true ->
  exists out,
    returns h requests g l out
    /\ (forall x, isBloodRequest x = true ->
          List.filter (tied x) out
          = List.filter (tied x)
              (List.filter (keepsLocation l)
                 (List.filter (keepsBloodGroup g) R)))
    /\ (forall a b,
          before a b R -> tied a b = true ->
          keepsBloodGroup g a = true -> keepsLocation l a = true ->
          keepsBloodGroup g b = true -> keepsLocation l b = true ->
          before a b out).
Proof.
  intros Ha HR. exists (sortBy cmpKey (kept R g l)).
  split; [apply filteredRequests_typed; assumption|].
  assert (Hx : forall x, isBloodRequest x = true ->
            List.filter (tied x) (sortBy cmpKey (kept R g l))
            = List.filter (tied x) (kept R g l)).
  { intros x Tx.
    rewrite <- (filter_narrower (tieb cmpKey x) (tied x) (sortBy _ _)).
    2:{ intros y Hy. apply tied_tieb; [exact Tx|].
        apply (Permutation_in _ (sortBy_Permutation cmpKey _)) in Hy.
        eapply forallb_In; [apply kept_typed, HR | exact Hy]. }
    rewrite sortKey_stable.
    apply filter_narrower. intros y Hy.
    apply tied_tieb; [exact Tx|].
    eapply forallb_In; [apply kept_typed, HR | exact Hy]. }
  split; [exact Hx|].
  intros a b Hab Tab Ga La Gb Lb.
  assert (Ta : isBloodRequest a = true).
  { destruct Hab as (i & _ & _ & Hi & _).
    eapply forallb_In; [exact HR|].
    apply list_elem_of_In. eapply list_elem_of_lookup_2. exact Hi. }
  assert (Taa : tied a a = true).
  { unfold tied. rewrite !bool_decide_eq_true_2; reflexivity. }
  apply (filter_before (tied a)). rewrite (Hx a Ta).
  apply before_filter; [exact Taa | exact Tab |].
  unfold kept. apply before_filter; [exact La | exact Lb |].
  apply before_filter; [exact Ga | exact Gb | exact Hab].
Qed.

Lemma sort_stable_under_ties_witness :
  tied request7 request2 = true
  /\ before request7 request2 [request7; request1; request2]
  /\ exists out,
       returns [[request7; request1; request2]] 0%nat "all" "" out
       /\ List.filter (tied request7) out = [request7; request2]
       /\ before request7 request2 out.
Proof.
  assert (T : tied request7 request2 = true) by (vm_compute; reflexivity).
  assert (B : before request7 request2 [request7; request1; request2]).
  { exists 0%nat, 2%nat. split; [lia|]. split; reflexivity. }
  split; [exact T|]. split; [exact B|].
  destruct (sort_stable_under_ties [[request7; request1; request2]] 0%nat
              [request7; request1; request2] "all" "")
    as (out & Hout & Hties & Hbefore).
  - reflexivity.
  - vm_compute. reflexivity.
  - exists out. split; [exact Hout|]. split.
    + rewrite (Hties request7) by (vm_compute; reflexivity).
      vm_compute. reflexivity.
    + apply Hbefore; [exact B | exact T | reflexivity..].
Defined.

(** C8. The sort step is idempotent: on typed records it returns, and sorting
    what it returned returns the same sequence. *)
Theorem sort_idempotent (R : list JSObject) :
  forallb isBloodRequest R = true ->
  exists S, sortStage R = Ok S /\ sortStage S = Ok S.
Proof.
  intros HR. exists (sortBy cmpKey R). split.
  - apply sortStage_typed, HR.
  - rewrite sortStage_typed.
    + rewrite sortKey_idem. reflexivity.
    + apply forallb_forall. intros x Hx.
      apply (Permutation_in _ (sortBy_Permutation cmpKey R)) in Hx.
      eapply forallb_In; eauto.
Qed.

Lemma sort_idempotent_witness :
  exists S, sortStage [request1; request2] = Ok S /\ sortStage S = Ok S.
Proof. apply sort_idempotent. vm_compute. reflexivity. Defined.

(** C9. The pipeline does not mutate its input: after any run, successful or
    not, the snapshot array holds the records it held, as does every other
    array of the store; an array that is returned is a new one, distinct from
    the snapshot array.  On typed records an array is returned. *)
Theorem filteredRequests_keeps_snapshot (h h' : Heap) (requests : Addr)
    (R : list JSObject) (g l : string) (res : Result Addr) :
  h !! requests = Some R ->
  filteredRequests requests g l h = (res, h') ->
  h' !! requests = Some R
  /\ (forall a xs, h !! a = Some xs -> h' !! a = Some xs)
  /\ (forall b, res = Ok b ->
        b <> requests /\ h !! b = None /\ exists out, h' !! b = Some out)
  /\ (forallb isBloodRequest R = true -> exists b, res = Ok b).
Proof.
  intros Ha Hrun.
  pose proof Hrun as Hext.
  apply filteredRequests_extends in Hext as (extra & -> & Hb).
  assert (Hframe : forall a xs, h !! a = Some xs -> (h ++ extra) !! a = Some xs)
    by (intros a xs H; apply lookup_app_l_Some; exact H).
  split; [auto|]. split; [exact Hframe|]. split.
  - intros b Eb.
    destruct (Hb b Eb) as (R' & r1 & kp & out & _ & _ & _ & _ & -> & ->).
    assert (Hnew : h !! S (List.length h) = None)
      by (apply lookup_ge_None_2; lia).
    split; [intros E; rewrite <- E in Ha; congruence|].
    split; [exact Hnew|].
    exists out.
    change (h ++ [r1; out]) with (h ++ [r1] ++ [out]).
    rewrite app_assoc. apply list_lookup_middle.
    rewrite length_app. simpl. lia.
  - intros HR.
    destruct (filteredRequests_typed h requests R g l Ha HR)
      as (b & h2 & E & _).
    rewrite E in Hrun. injection Hrun as <- _. eauto.
Qed.

Lemma filteredRequests_keeps_snapshot_witness :
  snd (filteredRequests 0%nat "A+" "" [[request1; request2]]) !! 0%nat
  = Some [request1; request2].
Proof.
  refine (proj1 (filteredRequests_keeps_snapshot
                   [[request1; request2]]
                   [[request1; request2]; [request1]; [request1]]
                   0%nat [request1; request2] "A+" "" (Ok 2%nat) _ _)).
  - reflexivity.
  - reflexivity.
Defined.

(** ** The page *)

Lemma step_loading (s : PageState) (ev : Event) :
  loading (fst (step s ev)) = loading s && negb (isCallback ev).
Proof.
  destruct ev; simpl; rewrite ?andb_true_r, ?andb_false_r; reflexivity.
Qed.

(** C4. When the error callback fires, [loading] becomes false, the records of
    the last snapshot stay as they are, and no subscription is opened: the
    callback itself opens none, and over any sequence of events the page
    subscribes exactly once per mount. *)
Theorem error_keeps_snapshot (s : PageState) :
  loading (fst (step s SubscriptionFailed)) = false
  /\ requests (fst (step s SubscriptionFailed)) = requests s
  /\ existsb isSubscribe (snd (step s SubscriptionFailed)) = false
  /\ forall evs,
       List.length (List.filter isSubscribe (snd (run s evs)))
       = List.length (List.filter isMount evs).
Proof.
  repeat split.
  intros evs. revert s. induction evs as [|ev evs IH]; intros s; simpl.
  - reflexivity.
  - specialize (IH (fst (step s ev))).
    destruct (step s ev) as [s1 e1] eqn:E. simpl in IH.
    destruct (run s1 evs) as [s2 e2]. simpl in *.
    rewrite List.filter_app, length_app, IH.
    destruct ev; simpl in E; injection E as <- <-; reflexivity.
Qed.

(** C5. [loading] starts true and is a latch: after any sequence of events
    from any state it is true exactly when it was true before and no snapshot
    or error callback has run.  So it stays true until the first callback,
    and once false nothing sets it back. *)
Theorem loading_latch :
  loading initialState = true
  /\ forall s evs,
       loading (fst (run s evs)) = loading s && negb (existsb isCallback evs).
Proof.
  split; [reflexivity|].
  intros s evs. revert s. induction evs as [|ev evs IH]; intros s; simpl.
  - rewrite andb_true_r. reflexivity.
  - specialize (IH (fst (step s ev))).
    pose proof (step_loading s ev) as Hs.
    destruct (step s ev) as [s1 e1]. simpl in *.
    destruct (run s1 evs) as [s2 e2]. simpl in *.
    rewrite IH, Hs, negb_orb, andb_assoc. reflexivity.
Qed.

(** C7. Reset puts the blood-group filter back to "all" and the location
    filter back to the empty string and leaves the records alone.  With these
    two values the filter steps return every snapshot as it is, and on typed
    records the pipeline returns all the records of the snapshot, none
    removed and none added, in sorted order. *)
Theorem reset_shows_everything (s : PageState) :
  bloodGroupFilter (resetFilters s) = "all"
  /\ locationFilter (resetFilters s) = ""
  /\ requests (resetFilters s) = requests s
  /\ filterStage (requests s) "all" "" = Ok (requests s)
  /\ forall h a,
       h !! a = Some (requests s) ->
       forallb isBloodRequest (requests s) = true ->
       exists out,
         returns h a (bloodGroupFilter (resetFilters s))
                     (locationFilter (resetFilters s)) out
         /\ sortStage (requests s) = Ok out
         /\ Permutation out (requests s).
Proof.
  assert (K : forall R, kept R "all" "" = R).
  { intros R. unfold kept. rewrite !filter_all; reflexivity. }
  repeat split.
  - unfold filterStage.
    rewrite (filterM_pure _ (keepsBloodGroup "all")) by reflexivity. simpl.
    rewrite (filterM_pure _ (keepsLocation "")) by reflexivity.
    rewrite !filter_all; reflexivity.
  - intros h a Ha HR. simpl.
    exists (sortBy cmpKey (requests s)). split; [|split].
    + pose proof (filteredRequests_typed h a (requests s) "all" "" Ha HR) as H.
      rewrite K in H. exact H.
    + apply sortStage_typed, HR.
    + apply sortBy_Permutation.
Qed.

Lemma reset_shows_everything_witness :
  exists out,
    returns [[request1; request2]] 0%nat "all" "" out
    /\ sortStage [request1; request2] = Ok out
    /\ Permutation out [request1; request2].
Proof.
  apply (reset_shows_everything
           {| requests := [request1; request2]; loading := false;
              bloodGroupFilter := "O-"; locationFilter := "dha" |}
           ).
  - reflexivity.
  - vm_compute. reflexivity.
Defined.

(** ** The subscriber *)

Lemma fetchRequests_map (docs : list QueryDocumentSnapshot) :
  fetchRequests docs = List.map toRequest docs.
Proof.
  unfold fetchRequests.
  assert (G : forall acc,
             fold_left (fun fetched doc => fetched ++ [toRequest doc]) docs acc
             = acc ++ List.map toRequest docs).
  { induction docs as [|d docs IH]; intros acc; simpl.
    - rewrite app_nil_r. reflexivity.
    - rewrite IH, <- app_assoc. reflexivity. }
  apply G.
Qed.

Lemma toRequest_createdAt (doc : QueryDocumentSnapshot) :
  getProp (toRequest doc) "createdAt" = getProp (doc_data doc) "createdAt".
Proof. unfold getProp, toRequest. rewrite lookup_insert_eq. reflexivity. Qed.

Lemma toRequest_id (doc : QueryDocumentSnapshot) :
  doc_data doc !! "id" = None ->
  getProp (toRequest doc) "id" = JSString (doc_id doc).
Proof.
  intros H. unfold getProp, toRequest.
  rewrite lookup_insert_ne by discriminate.
  rewrite lookup_union_r by exact H.
  rewrite lookup_singleton_eq. reflexivity.
Qed.

Lemma toRequest_other (doc : QueryDocumentSnapshot) (k : string) :
  k <> "id" -> k <> "createdAt" ->
  toRequest doc !! k = doc_data doc !! k.
Proof.
  intros N1 N2. unfold toRequest.
  rewrite lookup_insert_ne by congruence.
  apply lookup_union_l. apply lookup_singleton_ne. congruence.
Qed.

(** C10 fails on [document4]: the payload's own [id] replaces the document
    identifier, and a [createdAt] stored as a number stays a number. *)
Lemma document4_keeps_payload_id_and_number :
  getProp (toRequest document4) "id" = JSString "legacy-4"
  /\ getProp (toRequest document4) "createdAt" = JSNumber 1700000000000
  /\ ~ carriesIdAndTimestamp document4
  /\ getProp (toRequest document4) "id" <> JSString (doc_id document4)
  /\ ~ exists t, getProp (toRequest document4) "createdAt" = JSTimestamp t.
Proof.
  assert (E1 : getProp (toRequest document4) "id" = JSString "legacy-4")
    by reflexivity.
  assert (E2 : getProp (toRequest document4) "createdAt"
               = JSNumber 1700000000000) by reflexivity.
  split; [exact E1|]. split; [exact E2|]. split; [|split].
  - intros [H _]. rewrite E1 in H. discriminate.
  - rewrite E1. discriminate.
  - intros [m H]. rewrite E2 in H. discriminate.
Qed.

(** C10, amended.  The snapshot callback stores one record per document, in
    the order of the snapshot.  The record's [createdAt] is the payload's
    [createdAt] value as it is, [undefined] when the payload has none; if
    the payload has no field named [id], the record's [id] is the document
    identifier; every other field is the payload's. *)
Theorem subscriber_builds_records (docs : list QueryDocumentSnapshot)
    (s : PageState) (doc : QueryDocumentSnapshot) :
  doc_data doc !! "id" = None ->
  requests (onNext docs s) = List.map toRequest docs
  /\ getProp (toRequest doc) "id" = JSString (doc_id doc)
  /\ getProp (toRequest doc) "createdAt" = getProp (doc_data doc) "createdAt"
  /\ (forall k, k <> "id" -> k <> "createdAt" ->
        toRequest doc !! k = doc_data doc !! k).
Proof.
  intros H. split; [apply fetchRequests_map|].
  split; [apply toRequest_id, H|].
  split; [apply toRequest_createdAt|].
  intros k. apply toRequest_other.
Qed.

Lemma subscriber_builds_records_witness :
  getProp (toRequest document5) "id" = JSString "Zx81b".
Proof.
  apply (subscriber_builds_records [document5] initialState document5).
  vm_compute. reflexivity.
Defined.

(** ** Records without an urgency *)

Lemma compareRequests_readable (x y : JSObject) :
  isReadable x = true -> isReadable y = true ->
  exists c, compareRequests x y = Ok c.
Proof.
  unfold isReadable, compareRequests. intros Hx Hy.
  destruct (getProp x "location"); try discriminate.
  destruct (getProp x "createdAt"); try discriminate.
  destruct (getProp y "location"); try discriminate.
  destruct (getProp y "createdAt"); try discriminate.
  destruct (js_lt _ _); [eauto|].
  destruct (js_gt _ _); simpl; eauto.
Qed.

Lemma lacksUrgency_rank (r : JSObject) :
  lacksUrgency r = true -> urgencyRank (getProp r "urgency") = None.
Proof.
  unfold lacksUrgency, urgencyRank.
  destruct (getProp r "urgency") as [| | | |s|]; try reflexivity.
  destruct (urgencyOrder !! s); [discriminate | reflexivity].
Qed.

Lemma compareRequests_unranked (x y : JSObject) :
  isReadable x = true -> isReadable y = true ->
  lacksUrgency x = true \/ lacksUrgency y = true ->
  compareRequests x y = Ok (roundDouble (millisOf y - millisOf x)).
Proof.
  unfold isReadable, compareRequests, millisOf. intros Hx Hy Hu.
  destruct (getProp x "location"); try discriminate.
  destruct (getProp x "createdAt"); try discriminate.
  destruct (getProp y "location"); try discriminate.
  destruct (getProp y "createdAt"); try discriminate.
  destruct Hu as [Hu|Hu]; apply lacksUrgency_rank in Hu; rewrite Hu.
  - reflexivity.
  - destruct (urgencyRank (getProp x "urgency")); reflexivity.
Qed.

Lemma matchesLocation_readable (l : string) (r : JSObject) :
  isReadable r = true -> matchesLocation l r = Ok (keepsLocation l r).
Proof.
  unfold isReadable, matchesLocation, keepsLocation. intros H.
  destruct (getProp r "location"); try discriminate.
  destruct (String.eqb l ""); reflexivity.
Qed.

(** C2 fails on a snapshot of [request2] and [request3]: [request3] has no
    urgency, no error is raised, and [request3] is put first, ahead of the
    Urgent [request2], on its creation timestamp alone. *)
Lemma missing_urgency_sorts_silently :
  existsb lacksUrgency [request2; request3] = true
  /\ filteredRequests 0%nat "all" "" [[request2; request3]]
     = (Ok 2%nat, [[request2; request3]; [request2; request3];
                   [request3; request2]])
  /\ ~ failsWithError [[request2; request3]] 0%nat "all" "".
Proof.
  assert (E : filteredRequests 0%nat "all" "" [[request2; request3]]
              = (Ok 2%nat, [[request2; request3]; [request2; request3];
                            [request3; request2]])) by reflexivity.
  split; [reflexivity|]. split; [exact E|].
  intros (e & h' & H). rewrite E in H. discriminate.
Qed.

(** With a record without a rank the comparator is not transitive: it puts
    the Moderate [request1] before [request3] and [request3] before the
    Urgent [request2], each time on the timestamps, and [request2] before
    [request1] on the ranks.  Where [sort] then leaves the three is up to
    the engine; the model leaves them as they stand. *)
Example unranked_record_between :
  filteredRequests 0%nat "all" "" [[request1; request3; request2]]
  = (Ok 2%nat, [[request1; request3; request2]; [request1; request3; request2];
                [request1; request3; request2]])
  /\ compareRequests request1 request3 = Ok (-50000)%Q
  /\ compareRequests request3 request2 = Ok (-50000)%Q
  /\ compareRequests request1 request2 = Ok 1%Q.
Proof. repeat split; reflexivity. Qed.

(** C2, amended.  On a snapshot whose records have a string [location] and a
    Timestamp [createdAt], and an [urgency] that is missing or holds a
    primitive value (a string, a number, a boolean, [null]) or a Timestamp,
    the pipeline raises no error: it returns an arrangement of the records
    that pass the filters.  A record whose urgency is missing, or is such a
    value and names no property of [urgencyOrder], has no rank: the
    comparator answers, for any pair with such a record, the difference of
    the two [toMillis()] readings, the later record first.  (The values of
    [JSValue] are the values named; an urgency that is an array or a map is
    not among them.) *)
Theorem missing_urgency_is_not_an_error (h : Heap) (requests : Addr)
    (R : list JSObject) (g l : string) :
  h !! requests = Some R ->
  forallb isReadable R = true ->
  (exists out, returns h requests g l out
               /\ Permutation out (kept R g l)
               /\ ~ failsWithError h requests g l)
  /\ (forall x y, In x R -> In y R ->
        lacksUrgency x = true \/ lacksUrgency y = true ->
        compareRequests x y = Ok (roundDouble (millisOf y - millisOf x))).
Proof.
  intros Ha HR. split.
  - assert (H1 : filterM (matchesBloodGroup g) R
                 = Ok (List.filter (keepsBloodGroup g) R))
      by (apply filterM_pure; reflexivity).
    assert (H2 : filterM (matchesLocation l) (List.filter (keepsBloodGroup g) R)
                 = Ok (kept R g l)).
    { apply filterM_pure. intros x Hx. apply matchesLocation_readable.
      eapply forallb_In; [apply forallb_filter, HR | exact Hx]. }
    destruct (sortM_total compareRequests (kept R g l)) as [out H3].
    { intros x y Hx Hy.
      apply compareRequests_readable;
        (eapply forallb_In; [apply (kept_forallb _ R g l), HR | assumption]). }
    pose proof (filteredRequests_run h requests g l R _ _ out Ha H1 H2 H3) as E.
    exists out. split; [|split].
    + exists (S (List.length h)), (h ++ [List.filter (keepsBloodGroup g) R; out]).
      split; [exact E|].
      change (h ++ [List.filter (keepsBloodGroup g) R; out])
        with (h ++ [List.filter (keepsBloodGroup g) R] ++ [out]).
      rewrite app_assoc. apply list_lookup_middle.
      rewrite length_app. simpl. lia.
    + apply (sortM_Permutation _ _ _ H3).
    + intros (e & h' & H). rewrite E in H. discriminate.
  - intros x y Hx Hy Hu.
    apply compareRequests_unranked; [| |exact Hu];
      eapply forallb_In; eauto.
Qed.

Lemma missing_urgency_is_not_an_error_witness :
  lacksUrgency request3 = true
  /\ (exists out, returns [[request2; request3]] 0%nat "all" "" out
                  /\ Permutation out [request2; request3]
                  /\ ~ failsWithError [[request2; request3]] 0%nat "all" "")
  /\ compareRequests request3 request2
     = Ok (roundDouble (millisOf request2 - millisOf request3)).
Proof.
  split; [reflexivity|].
  destruct (missing_urgency_is_not_an_error [[request2; request3]] 0%nat
              [request2; request3] "all" "") as [Hout Hcmp].
  - reflexivity.
  - vm_compute. reflexivity.
  - split; [exact Hout|].
    apply Hcmp; [right; left; reflexivity | left; reflexivity |].
    left. reflexivity.
Defined.

(** * Further properties *)

(** ** Lists and strings *)

Lemma filterM_ext {A : Type} (p p' : A -> Result bool) (l : list A) :
  (forall x, p x = p' x) -> filterM p l = filterM p' l.
Proof.
  intros H. induction l as [|x l IH]; simpl; [reflexivity|].
  rewrite H, IH. reflexivity.
Qed.

Lemma filter_swap {A : Type} (p p' : A -> bool) (l : list A) :
  List.filter p' (List.filter p l) = List.filter p (List.filter p' l).
Proof.
  rewrite !filter_andb. apply List.filter_ext. intros x. apply andb_comm.
Qed.

Lemma Permutation_filter {A : Type} (p : A -> bool) (l l' : list A) :
  Permutation l l' -> Permutation (List.filter p l) (List.filter p l').
Proof.
  induction 1 as [|x l l' _ IH|x y l|l l' l'' _ IH1 _ IH2]; simpl.
  - constructor.
  - destruct (p x); [constructor|]; exact IH.
  - destruct (p x), (p y); try reflexivity. apply perm_swap.
  - etransitivity; eassumption.
Qed.

Lemma StronglySorted_filter {A : Type} (R : A -> A -> Prop) (p : A -> bool)
    (l : list A) :
  StronglySorted R l -> StronglySorted R (List.filter p l).
Proof.
  induction 1 as [|x l Hs IH Hx]; simpl; [constructor|].
  destruct (p x); [|exact IH].
  constructor; [exact IH|].
  rewrite List.Forall_forall in *. intros y Hy.
  apply List.filter_In in Hy as [Hy _]. auto.
Qed.

Lemma existsb_filter {A : Type} (p p' : A -> bool) (l : list A) :
  existsb p' (List.filter p l) = existsb (fun x => p x && p' x) l.
Proof.
  induction l as [|x l IH]; simpl; [reflexivity|].
  destruct (p x); simpl; rewrite IH; reflexivity.
Qed.

Lemma append_assoc (a b c : string) :
  String.append (String.append a b) c = String.append a (String.append b c).
Proof.
  induction a as [|x a IH]; [reflexivity|].
  rewrite !append_cons, IH. reflexivity.
Qed.

Lemma toLowerCase_empty (s : string) :
  toLowerCase s = EmptyString -> s = EmptyString.
Proof. destruct s; [reflexivity | discriminate]. Qed.

Lemma includes_trans (s t u : string) :
  includes s t = true -> includes t u = true -> includes s u = true.
Proof.
  rewrite !includes_spec. intros (x & y & ->) (v & w & ->).
  exists (String.append x v), (String.append w y).
  rewrite !append_assoc. reflexivity.
Qed.

Lemma containsIgnoringCase_trans (s t u : string) :
  containsIgnoringCase s t -> containsIgnoringCase t u ->
  containsIgnoringCase s u.
Proof.
  rewrite <- !includes_toLowerCase. apply includes_trans.
Qed.

(** Filtering commutes with the sort of typed records. *)
Lemma sortKey_filter (p : JSObject -> bool) (l : list JSObject) :
  List.filter p (sortBy cmpKey l) = sortBy cmpKey (List.filter p l).
Proof.
  apply sortKey_unique.
  - apply Permutation_filter, sortBy_Permutation.
  - apply StronglySorted_filter, sortKey_sorted.
  - intros z. rewrite filter_swap, sortKey_stable. apply filter_swap.
Qed.

Lemma kept_andb (R : list JSObject) (g l : string) :
  kept R g l
  = List.filter (fun r => keepsBloodGroup g r && keepsLocation l r) R.
Proof. apply filter_andb. Qed.

Lemma kept_all (R : list JSObject) : kept R "all" "" = R.
Proof. unfold kept. rewrite !filter_all; reflexivity. Qed.

(** ** The filter controls *)

Lemma matchesLocation_lower (l1 l2 : string) (r : JSObject) :
  toLowerCase l1 = toLowerCase l2 ->
  matchesLocation l1 r = matchesLocation l2 r.
Proof.
  intros H. unfold matchesLocation. rewrite H.
  destruct l1 as [|c1 l1], l2 as [|c2 l2]; try reflexivity; discriminate.
Qed.

(** X1. The location filter ignores letter case: two filter texts with the
    same lower-case form give the same run of the pipeline, on every store
    and for every blood-group filter, errors included. *)
Theorem location_filter_ignores_case (l1 l2 : string) :
  toLowerCase l1 = toLowerCase l2 ->
  forall (requests : Addr) (g : string) (h : Heap),
    filteredRequests requests g l1 h = filteredRequests requests g l2 h.
Proof.
  intros H requests g h.
  destruct (h !! requests) as [R|] eqn:Ha.
  - rewrite !(filteredRequests_eq h requests g _ R Ha).
    destruct (filterM (matchesBloodGroup g) R) as [r1|e]; [|reflexivity].
    rewrite (filterM_ext (matchesLocation l1) (matchesLocation l2))
      by (intros x; apply matchesLocation_lower, H).
    reflexivity.
  - rewrite !filteredRequests_dangling by exact Ha. reflexivity.
Qed.

Lemma location_filter_ignores_case_witness :
  filteredRequests 0%nat "all" "DHA" [[request1; request2]]
  = filteredRequests 0%nat "all" "dha" [[request1; request2]].
Proof. apply location_filter_ignores_case. reflexivity. Defined.

(** X2. Filtering and sorting commute on typed records: what the pipeline
    returns for a pair of filters is what it returns without filters, with
    the records that fail a filter taken out.  Choosing a filter removes
    cards and never reorders the ones that stay. *)
Theorem filters_only_remove (h : Heap) (requests : Addr) (R : list JSObject)
    (g l : string) :
  h !! requests = Some R ->
  forallb isBloodRequest R = true ->
  exists everything out,
    returns h requests "all" "" everything
    /\ returns h requests g l out
    /\ Permutation everything R
    /\ out = List.filter (fun r => keepsBloodGroup g r && keepsLocation l r)
                         everything.
Proof.
  intros Ha HR.
  exists (sortBy cmpKey R), (sortBy cmpKey (kept R g l)).
  split; [|split; [|split]].
  - pose proof (filteredRequests_typed h requests R "all" "" Ha HR) as H.
    rewrite kept_all in H. exact H.
  - apply filteredRequests_typed; assumption.
  - apply sortBy_Permutation.
  - rewrite sortKey_filter, kept_andb. reflexivity.
Qed.

Lemma filters_only_remove_witness :
  exists everything out,
    returns [[request1; request2]] 0%nat "all" "" everything
    /\ returns [[request1; request2]] 0%nat "A+" "dha" out.
Proof.
  destruct (filters_only_remove [[request1; request2]] 0%nat
              [request1; request2] "A+" "dha")
    as (everything & out & H1 & H2 & _).
  - reflexivity.
  - vm_compute. reflexivity.
  - exists everything, out. split; assumption.
Defined.

(** What the filter compares is the lower-cased texts; that a text within a
    text within the location is a text within the location does not depend
    on how [toLowerCase] maps the characters. *)
Lemma keepsLocation_narrower (l l2 : string) (r : JSObject) :
  includes (toLowerCase l2) (toLowerCase l) = true ->
  keepsLocation l2 r = true -> keepsLocation l r = true.
Proof.
  intros Hc. unfold keepsLocation. rewrite !orb_true_iff, !String.eqb_eq.
  intros [->|H].
  - left. apply includes_spec in Hc as (pre & post & E). simpl in E.
    destruct pre; [|discriminate]. rewrite append_empty in E.
    apply toLowerCase_empty.
    destruct (toLowerCase l); [reflexivity | discriminate].
  - right. destruct (getProp r "location"); try discriminate.
    eapply includes_trans; eassumption.
Qed.

(** X3. A longer location text narrows the list: when the new filter text,
    lower-cased, contains the old one, lower-cased, the pipeline returns, on
    typed records, what it returned before with the records that fail the
    new text taken out.  Typing on never adds a card and never reorders the
    rest. *)
Theorem longer_location_text_narrows (h : Heap) (requests : Addr)
    (R : list JSObject) (g l l2 : string) :
  h !! requests = Some R ->
  forallb isBloodRequest R = true ->
  includes (toLowerCase l2) (toLowerCase l) = true ->
  exists out out2,
    returns h requests g l out
    /\ returns h requests g l2 out2
    /\ out2 = List.filter (keepsLocation l2) out.
Proof.
  intros Ha HR Hc.
  exists (sortBy cmpKey (kept R g l)), (sortBy cmpKey (kept R g l2)).
  split; [apply filteredRequests_typed; assumption|].
  split; [apply filteredRequests_typed; assumption|].
  rewrite sortKey_filter. f_equal. unfold kept.
  rewrite (filter_narrower (keepsLocation l) (keepsLocation l2));
    [reflexivity|].
  intros x _. apply keepsLocation_narrower, Hc.
Qed.

Lemma longer_location_text_narrows_witness :
  exists out out2,
    returns [[request1; request2]] 0%nat "all" "dha" out
    /\ returns [[request1; request2]] 0%nat "all" "Dhak" out2
    /\ out2 = List.filter (keepsLocation "Dhak") out.
Proof.
  apply (longer_location_text_narrows [[request1; request2]] 0%nat
           [request1; request2] "all" "dha" "Dhak").
  - reflexivity.
  - vm_compute. reflexivity.
  - reflexivity.
Defined.

(** X4. The pipeline leaves its own output alone: run again, with the same
    filters, on an array that holds what it returned for typed records, it
    returns the same sequence. *)
Theorem pipeline_fixes_its_output (h : Heap) (requests : Addr)
    (R : list JSObject) (g l : string) :
  h !! requests = Some R ->
  forallb isBloodRequest R = true ->
  exists out,
    returns h requests g l out
    /\ forall (h2 : Heap) (a2 : Addr),
         h2 !! a2 = Some out -> returns h2 a2 g l out.
Proof.
  intros Ha HR. exists (sortBy cmpKey (kept R g l)).
  split; [apply filteredRequests_typed; assumption|].
  intros h2 a2 Ha2.
  assert (T : forallb isBloodRequest (sortBy cmpKey (kept R g l)) = true).
  { apply forallb_forall. intros x Hx.
    apply (Permutation_in _ (sortBy_Permutation cmpKey _)) in Hx.
    eapply forallb_In; [apply kept_typed, HR | exact Hx]. }
  pose proof (filteredRequests_typed h2 a2 _ g l Ha2 T) as H.
  assert (K : kept (sortBy cmpKey (kept R g l)) g l
              = sortBy cmpKey (kept R g l)).
  { rewrite (kept_andb (sortBy cmpKey (kept R g l))), sortKey_filter.
    f_equal. rewrite kept_andb, filter_andb.
    apply List.filter_ext. intros x. apply andb_diag. }
  rewrite K, sortKey_idem in H. exact H.
Qed.

Lemma pipeline_fixes_its_output_witness :
  exists out,
    returns [[request1; request2]] 0%nat "all" "" out
    /\ forall (h2 : Heap) (a2 : Addr),
         h2 !! a2 = Some out -> returns h2 a2 "all" "" out.
Proof.
  apply (pipeline_fixes_its_output [[request1; request2]] 0%nat
           [request1; request2] "all" "").
  - reflexivity.
  - vm_compute. reflexivity.
Defined.

(** ** Errors of the two filters and of the comparator *)

Lemma filterM_matchesLocation (l : string) (X : list JSObject) :
  l <> "" ->
  filterM (matchesLocation l) X
  = if existsb (fun r => negb (isString (getProp r "location"))) X
    then Throw TypeError
    else Ok (List.filter (keepsLocation l) X).
Proof.
  intros Hl. apply String.eqb_neq in Hl.
  induction X as [|r X IH]; [reflexivity|].
  simpl. unfold matchesLocation at 1, keepsLocation at 1. rewrite Hl.
  destruct (getProp r "location"); simpl; try reflexivity.
  rewrite IH.
  destruct (existsb _ X); simpl; [reflexivity|].
  destruct (includes _ _); reflexivity.
Qed.

(** X5. The outcome of the two [filter] calls.  They throw a TypeError
    exactly when a location filter is set and some record that passes the
    blood-group filter has a [location] that is not a string; otherwise they
    return the records that pass both tests.  With an empty location filter
    no [location] is read, and a record that the blood-group filter rejects
    is never asked for its [location]. *)
Theorem filter_calls_outcome (R : list JSObject) (g l : string) :
  filterStage R g l
  = if readsBadLocation R g l then Throw TypeError else Ok (kept R g l).
Proof.
  unfold filterStage, readsBadLocation.
  rewrite (filterM_pure _ (keepsBloodGroup g)) by reflexivity. simpl.
  destruct (String.eqb l "") eqn:El; simpl.
  - apply String.eqb_eq in El. subst l.
    apply filterM_pure. reflexivity.
  - apply String.eqb_neq in El.
    rewrite (filterM_matchesLocation l _ El), existsb_filter. reflexivity.
Qed.

(** X6. The urgency decides first: for two records whose urgencies are keys
    of [urgencyOrder] with different ranks, the comparator answers -1 or 1
    by the ranks alone.  It does not read [createdAt], so it raises no error
    even when a [createdAt] is missing or is not a Timestamp. *)
Theorem urgency_decides_before_createdAt (a b : JSObject) (ka kb : Z) :
  urgencyRank (getProp a "urgency") = Some ka ->
  urgencyRank (getProp b "urgency") = Some kb ->
  ka <> kb ->
  compareRequests a b = Ok (if ka <? kb then (-1)%Q else 1%Q).
Proof.
  intros Ha Hb Hne. unfold compareRequests. rewrite Ha, Hb. simpl.
  destruct (Z.ltb_spec ka kb); [reflexivity|].
  rewrite Z.gtb_ltb. destruct (Z.ltb_spec kb ka); [reflexivity | lia].
Qed.

Lemma urgency_decides_before_createdAt_witness :
  compareRequests (delete "createdAt" request2) (delete "createdAt" request1)
  = Ok (-1)%Q.
Proof.
  apply (urgency_decides_before_createdAt
           (delete "createdAt" request2) (delete "createdAt" request1) 1 2).
  - reflexivity.
  - reflexivity.
  - lia.
Defined.

(** X7. On typed records the comparator is a consistent comparison function,
    as [sort] asks: it always answers, it answers 0 for a record against
    itself, swapping the arguments flips the sign, and it is transitive. *)
Theorem comparator_is_consistent (a b c : JSObject) :
  isBloodRequest a = true ->
  isBloodRequest b = true ->
  isBloodRequest c = true ->
  exists aa ab ba bc ac,
    compareRequests a a = Ok aa
    /\ compareRequests a b = Ok ab
    /\ compareRequests b a = Ok ba
    /\ compareRequests b c = Ok bc
    /\ compareRequests a c = Ok ac
    /\ aa = 0%Q
    /\ sgnQ ba = - sgnQ ab
    /\ ((ab <= 0)%Q -> (bc <= 0)%Q -> (ac <= 0)%Q).
Proof.
  intros Ta Tb Tc.
  exists (answerOf a a), (answerOf a b), (answerOf b a), (answerOf b c),
         (answerOf a c).
  rewrite !compareRequests_typed by assumption.
  repeat split.
  - unfold answerOf. rewrite Z.gtb_ltb, Z.ltb_irrefl.
    apply roundDouble_zero. simpl. lia.
  - pose proof (cmpKey_sgn a b) as S.
    unfold cmpKey in S. rewrite !sgnQ_sgn in S. exact S.
  - rewrite !Qle_sgnQ. apply cmpKey_trans.
Qed.

Lemma comparator_is_consistent_witness :
  exists aa ab ba bc ac,
    compareRequests request1 request1 = Ok aa
    /\ compareRequests request1 request2 = Ok ab
    /\ compareRequests request2 request1 = Ok ba
    /\ compareRequests request2 request1 = Ok bc
    /\ compareRequests request1 request1 = Ok ac
    /\ aa = 0%Q
    /\ sgnQ ba = - sgnQ ab
    /\ ((ab <= 0)%Q -> (bc <= 0)%Q -> (ac <= 0)%Q).
Proof.
  apply (comparator_is_consistent request1 request2 request1);
    vm_compute; reflexivity.
Defined.

(** ** The blood-group options *)

Lemma keepsBloodGroup_group (g : string) (r : JSObject) :
  In g bloodGroups ->
  keepsBloodGroup g r = true <-> getProp r "bloodGroup" = JSString g.
Proof.
  intros Hg. rewrite keepsBloodGroup_true. split; [|auto].
  intros [->|H]; [|exact H].
  simpl in Hg. repeat (destruct Hg as [Hg|Hg]; [discriminate|]). destruct Hg.
Qed.

(** X8. The no-filter value is not a blood group: the options of the select
    are pairwise different, each of the eight group options keeps exactly the
    records of that group, and a typed record is kept by exactly one of the
    eight. *)
Theorem group_options_partition (r : JSObject) :
  NoDup bloodGroupOptions
  /\ (forall g, In g bloodGroups ->
        (keepsBloodGroup g r = true <-> getProp r "bloodGroup" = JSString g))
  /\ (isBloodRequest r = true ->
        exists g, In g bloodGroups
                  /\ keepsBloodGroup g r = true
                  /\ forall g', In g' bloodGroups ->
                                keepsBloodGroup g' r = true -> g' = g).
Proof.
  split; [|split].
  - apply NoDup_ListNoDup.
    repeat (constructor; [simpl; intuition discriminate|]). constructor.
  - intros g Hg. apply keepsBloodGroup_group, Hg.
  - intros T.
    destruct (isBloodRequest_fields r T) as (g & _ & _ & _ & Hg & Hin & _).
    exists g. split; [exact Hin|]. split.
    + apply keepsBloodGroup_group; assumption.
    + intros g' Hin' Hk. apply keepsBloodGroup_group in Hk; [|exact Hin'].
      congruence.
Qed.

Lemma group_options_partition_witness :
  exists g, In g bloodGroups /\ keepsBloodGroup g request1 = true.
Proof.
  destruct (group_options_partition request1) as (_ & _ & H).
  destruct H as (g & Hin & Hk & _).
  - vm_compute. reflexivity.
  - exists g. split; assumption.
Defined.

(** ** The page over time *)

Lemma run_app (s : PageState) (evs1 evs2 : list Event) :
  fst (run s (evs1 ++ evs2)) = fst (run (fst (run s evs1)) evs2).
Proof.
  revert s. induction evs1 as [|ev evs1 IH]; intros s; simpl; [reflexivity|].
  destruct (step s ev) as [s1 e1]. specialize (IH s1).
  destruct (run s1 (evs1 ++ evs2)) as [s2 e2].
  destruct (run s1 evs1) as [s3 e3]. simpl in *. exact IH.
Qed.

Lemma run_cons (s : PageState) (ev : Event) (evs : list Event) :
  fst (run s (ev :: evs)) = fst (run (fst (step s ev)) evs).
Proof.
  simpl. destruct (step s ev) as [s1 e1]. simpl.
  destruct (run s1 evs). reflexivity.
Qed.

Lemma memo_returns (s : PageState) (out : list JSObject) :
  memo s = Ok out <->
  returns [requests s] 0%nat (bloodGroupFilter s) (locationFilter s) out.
Proof.
  unfold memo, returns. split.
  - destruct (filteredRequests _ _ _ _) as [[a|e] h']; [|discriminate].
    destruct (h' !! a) as [o|] eqn:E; [|discriminate].
    intros [= <-]. eauto.
  - intros (a & h' & -> & ->). reflexivity.
Qed.

Lemma memo_empty (s : PageState) : requests s = [] -> memo s = Ok [].
Proof. intros H. unfold memo. rewrite H. reflexivity. Qed.

(** X9. Skeletons stand for no data: in every state the page can reach from
    its initial state, [loading] being true means that no record is held; the
    memo then yields the empty list without error, whatever the filters, and
    the six skeleton cards are rendered. *)
Theorem loading_means_no_records (evs : list Event) :
  loading (fst (run initialState evs)) = true ->
  requests (fst (run initialState evs)) = []
  /\ memo (fst (run initialState evs)) = Ok []
  /\ render (fst (run initialState evs)) = Ok (SkeletonGrid [0; 1; 2; 3; 4; 5]%nat).
Proof.
  assert (Inv : forall s, (loading s = true -> requests s = []) ->
                 loading (fst (run s evs)) = true ->
                 requests (fst (run s evs)) = []).
  { induction evs as [|ev evs IH]; intros s Hs; [exact Hs|].
    rewrite run_cons. apply IH.
    destruct ev; simpl; auto; discriminate. }
  intros Hl.
  assert (Hr : requests (fst (run initialState evs)) = [])
    by (apply Inv; [reflexivity | exact Hl]).
  split; [exact Hr|]. split; [apply memo_empty, Hr|].
  unfold render. rewrite (memo_empty _ Hr), Hl. reflexivity.
Qed.

Lemma loading_means_no_records_witness :
  requests (fst (run initialState [Mount; BloodGroupSelected "A+";
                                   LocationTyped "dha"])) = [].
Proof.
  apply (loading_means_no_records
           [Mount; BloodGroupSelected "A+"; LocationTyped "dha"]).
  reflexivity.
Defined.

Lemma run_keeps_requests (s : PageState) (evs : list Event) :
  existsb isSnapshot evs = false ->
  requests (fst (run s evs)) = requests s.
Proof.
  revert s. induction evs as [|ev evs IH]; intros s H; [reflexivity|].
  simpl in H. apply orb_false_iff in H as [Hev H].
  rewrite run_cons, IH by exact H.
  destruct ev; try reflexivity; discriminate.
Qed.

(** X10. The last snapshot wins: after any sequence of events, the records
    held are those of the last snapshot delivered, one record per document in
    the order of the snapshot.  Earlier snapshots leave no trace, and errors
    and filter changes do not touch the records. *)
Theorem last_snapshot_wins (s : PageState) (evs evs' : list Event)
    (docs : list QueryDocumentSnapshot) :
  existsb isSnapshot evs' = false ->
  requests (fst (run s (evs ++ SnapshotArrived docs :: evs')))
  = List.map toRequest docs.
Proof.
  intros H. rewrite run_app, run_cons, run_keeps_requests by exact H.
  apply fetchRequests_map.
Qed.

Lemma last_snapshot_wins_witness :
  requests (fst (run initialState
                   ([Mount; SnapshotArrived [document4]]
                    ++ SnapshotArrived [document5]
                    :: [SubscriptionFailed; ResetClicked])))
  = List.map toRequest [document5].
Proof. apply last_snapshot_wins. reflexivity. Defined.

Lemma run_requests_loading (s s' : PageState) (evs : list Event) :
  requests s = requests s' -> loading s = loading s' ->
  requests (fst (run s evs)) = requests (fst (run s' evs))
  /\ loading (fst (run s evs)) = loading (fst (run s' evs)).
Proof.
  revert s s'. induction evs as [|ev evs IH]; intros s s' Hr Hl; [auto|].
  rewrite !run_cons. apply IH; destruct ev; simpl; auto.
Qed.

Lemma run_filters (s s' : PageState) (evs : list Event) :
  bloodGroupFilter s = bloodGroupFilter s' ->
  locationFilter s = locationFilter s' ->
  bloodGroupFilter (fst (run s evs)) = bloodGroupFilter (fst (run s' evs))
  /\ locationFilter (fst (run s evs)) = locationFilter (fst (run s' evs)).
Proof.
  revert s s'. induction evs as [|ev evs IH]; intros s s' Hg Hl; [auto|].
  rewrite !run_cons. apply IH; destruct ev; simpl; auto.
Qed.

(** X11. The data and the controls do not interfere.  After any sequence of
    events the records and [loading] are what the subscription callbacks
    alone would have produced, and the two filters are what the filter
    controls alone would have produced. *)
Theorem data_and_controls_are_independent (s : PageState)
    (evs : list Event) :
  requests (fst (run s evs))
    = requests (fst (run s (List.filter isCallback evs)))
  /\ loading (fst (run s evs))
    = loading (fst (run s (List.filter isCallback evs)))
  /\ bloodGroupFilter (fst (run s evs))
    = bloodGroupFilter
        (fst (run s (List.filter (fun ev => negb (isCallback ev)) evs)))
  /\ locationFilter (fst (run s evs))
    = locationFilter
        (fst (run s (List.filter (fun ev => negb (isCallback ev)) evs))).
Proof.
  revert s. induction evs as [|ev evs IH]; intros s; [auto|].
  destruct (IH (fst (step s ev))) as (H1 & H2 & H3 & H4).
  simpl List.filter. destruct (isCallback ev) eqn:E; simpl negb; cbv iota.
  - rewrite !run_cons.
    destruct (run_filters (fst (step s ev)) s
                (List.filter (fun ev => negb (isCallback ev)) evs))
      as [F1 F2]; [destruct ev; try discriminate; reflexivity ..|].
    rewrite H1, H2, H3, H4, F1, F2. auto.
  - rewrite !run_cons.
    destruct (run_requests_loading (fst (step s ev)) s
                (List.filter isCallback evs))
      as [F1 F2]; [destruct ev; try discriminate; reflexivity ..|].
    rewrite H1, H2, H3, H4, F1, F2. auto.
Qed.

(** ** From documents to cards *)

Lemma toRequest_getProp (doc : QueryDocumentSnapshot) (k : string) :
  k <> "id" -> getProp (toRequest doc) k = getProp (doc_data doc) k.
Proof.
  intros N. destruct (String.eqb_spec k "createdAt") as [->|N2].
  - apply toRequest_createdAt.
  - unfold getProp. rewrite toRequest_other by assumption. reflexivity.
Qed.

Lemma toRequest_typed (doc : QueryDocumentSnapshot) :
  isBloodRequest (doc_data doc) = true -> isBloodRequest (toRequest doc) = true.
Proof.
  unfold isBloodRequest.
  rewrite !toRequest_getProp by discriminate. auto.
Qed.

(** X12. From a snapshot to the cards.  When the payloads of a snapshot are
    typed, the render that follows shows, for whatever filters are set, the
    "no matches" text exactly when no record passes them, and otherwise one
    card per passing record, none left out and none twice; no error is
    raised. *)
Theorem snapshot_to_cards (s : PageState)
    (docs : list QueryDocumentSnapshot) :
  forallb (fun doc => isBloodRequest (doc_data doc)) docs = true ->
  exists out,
    memo (fst (step s (SnapshotArrived docs))) = Ok out
    /\ Permutation out (kept (List.map toRequest docs)
                             (bloodGroupFilter s) (locationFilter s))
    /\ render (fst (step s (SnapshotArrived docs)))
       = Ok (match out with
             | [] => NoMatches
             | _ :: _ => CardGrid (List.map card out)
             end).
Proof.
  intros HT.
  assert (T : forallb isBloodRequest (List.map toRequest docs) = true).
  { apply forallb_forall. intros r Hr.
    apply List.in_map_iff in Hr as (doc & <- & Hd).
    apply toRequest_typed. apply (forallb_In _ _ _ HT Hd). }
  set (s' := fst (step s (SnapshotArrived docs))).
  assert (R' : requests s' = List.map toRequest docs)
    by apply fetchRequests_map.
  exists (sortBy cmpKey (kept (List.map toRequest docs)
                              (bloodGroupFilter s) (locationFilter s))).
  assert (M : memo s' = Ok (sortBy cmpKey (kept (List.map toRequest docs)
                              (bloodGroupFilter s) (locationFilter s)))).
  { apply memo_returns. rewrite R'.
    apply (filteredRequests_typed [List.map toRequest docs] 0%nat);
      [reflexivity | exact T]. }
  split; [exact M|]. split; [apply sortBy_Permutation|].
  unfold render. rewrite M. simpl.
  destruct (sortBy cmpKey _); reflexivity.
Qed.

Lemma snapshot_to_cards_witness :
  exists out, memo (fst (step initialState (SnapshotArrived [document5])))
              = Ok out.
Proof.
  destruct (snapshot_to_cards initialState [document5]) as (out & H & _).
  - vm_compute. reflexivity.
  - exists out. exact H.
Defined.

Lemma NoDup_map_filter {A B : Type} (f : A -> B) (p : A -> bool)
    (l : list A) :
  List.NoDup (List.map f l) -> List.NoDup (List.map f (List.filter p l)).
Proof.
  induction l as [|x l IH]; simpl; intros H; [constructor|].
  inversion H as [|y ys Hx Hl]; subst.
  destruct (p x); simpl; [|auto].
  constructor; [|auto].
  intros Hin. apply Hx.
  apply List.in_map_iff in Hin as (z & E & Hz).
  apply List.filter_In in Hz as [Hz _].
  apply List.in_map_iff. eauto.
Qed.

(** X13. The keys of the cards are pairwise different.  When the documents
    of a snapshot have different identifiers and no payload has a field
    named [id], then for any filters the records the memo yields have
    pairwise different [id] values, which are the React keys of the cards. *)
Theorem card_keys_distinct (s : PageState)
    (docs : list QueryDocumentSnapshot) (out : list JSObject) :
  List.NoDup (List.map doc_id docs) ->
  (forall doc, In doc docs -> doc_data doc !! "id" = None) ->
  memo (fst (step s (SnapshotArrived docs))) = Ok out ->
  List.NoDup (List.map fst (List.map card out)).
Proof.
  intros Hnd Hid Hm.
  apply memo_returns in Hm. apply returns_inv in Hm as (R & HR & Hs).
  injection HR as <-.
  change (requests (fst (step s (SnapshotArrived docs))))
    with (fetchRequests docs) in Hs.
  rewrite fetchRequests_map in Hs.
  rewrite List.map_map. simpl.
  apply (Permutation_NoDup
           (Permutation_map _ (Permutation_sym (sortM_Permutation _ _ _ Hs)))).
  apply NoDup_map_filter, NoDup_map_filter.
  rewrite List.map_map.
  rewrite (List.map_ext_in _ (fun doc => JSString (doc_id doc))).
  - rewrite <- (List.map_map doc_id JSString).
    apply List.NoDup_map_NoDup_ForallPairs; [|exact Hnd].
    intros a b _ _ [= E]. exact E.
  - intros doc Hd. apply toRequest_id, Hid, Hd.
Qed.

Lemma card_keys_distinct_witness :
  memo (fst (step initialState (SnapshotArrived [document5; document6])))
  = Ok [toRequest document6; toRequest document5]
  /\ List.map fst (List.map card [toRequest document6; toRequest document5])
     = [JSString "Qm27c"; JSString "Zx81b"]
  /\ List.NoDup
       (List.map fst
          (List.map card [toRequest document6; toRequest document5])).
Proof.
  split; [reflexivity|]. split; [reflexivity|].
  apply (card_keys_distinct initialState [document5; document6]
           [toRequest document6; toRequest document5]).
  - repeat constructor; simpl; intuition discriminate.
  - intros doc [<-|[<-|[]]]; reflexivity.
  - reflexivity.
Defined.

(** X14. The fields of a record.  The record made from a document has every
    field of the payload, with the payload's value, and besides these only
    [id] and [createdAt].  A payload field named [id] is kept: it takes the
    place of the document identifier. *)
Theorem record_fields (doc : QueryDocumentSnapshot) :
  dom (toRequest doc) = dom (doc_data doc) ∪ {[ "id"; "createdAt" ]}
  /\ (forall k v,
        doc_data doc !! k = Some v -> toRequest doc !! k = Some v)
  /\ (forall v, doc_data doc !! "id" = Some v ->
        getProp (toRequest doc) "id" = v).
Proof.
  assert (K : forall k v,
                doc_data doc !! k = Some v -> toRequest doc !! k = Some v).
  { intros k v H. unfold toRequest.
    destruct (String.eqb_spec k "createdAt") as [->|N].
    - rewrite lookup_insert_eq. unfold getProp. rewrite H. reflexivity.
    - rewrite lookup_insert_ne by congruence.
      apply lookup_union_Some_l, H. }
  split; [|split].
  - unfold toRequest.
    rewrite dom_insert_L, dom_union_L, dom_singleton_L.
    rewrite (comm_L (∪) {[ "createdAt" ]}), <- (assoc_L (∪)). reflexivity.
  - exact K.
  - intros v H. unfold getProp. rewrite (K "id" v H). reflexivity.
Qed.

Lemma record_fields_witness :
  getProp (toRequest document4) "id" = JSString "legacy-4".
Proof.
  apply (record_fields document4). reflexivity.
Defined.

(** ** The header *)

Section HeaderFacts.
Variable toUpperCase : string -> string.

Lemma splitSpace_scan (s : string) :
  exists w ws,
    Header.splitSpace s = w :: ws
    /\ Header.scanInitials false s
       = Header.joinEmpty (List.map Header.index0 ws)
    /\ Header.scanInitials true s
       = Header.joinEmpty (List.map Header.index0 (w :: ws)).
Proof.
  induction s as [|c s (w & ws & E & F & T)].
  - exists EmptyString, []. auto.
  - simpl. destruct (Ascii.eqb c " ").
    + exists EmptyString, (w :: ws). rewrite E, T. auto.
    + rewrite E. exists (String c w), ws. rewrite F. auto.
Qed.

Lemma joinEmpty_scan (s : string) :
  Header.joinEmpty (List.map Header.index0 (Header.splitSpace s))
  = Header.scanInitials true s.
Proof.
  destruct (splitSpace_scan s) as (w & ws & -> & _ & ->). reflexivity.
Qed.

Lemma scanInitials_blank (s : string) (b : bool) :
  Header.isBlank s = true -> Header.scanInitials b s = EmptyString.
Proof.
  revert b. induction s as [|c s IH]; intros b H; [reflexivity|].
  simpl in *. apply andb_prop in H as [-> H]. auto.
Qed.

Lemma scanInitials_not_blank (s : string) :
  Header.isBlank s = false -> Header.scanInitials true s <> EmptyString.
Proof.
  induction s as [|c s IH]; simpl; [discriminate|].
  destruct (Ascii.eqb c " "); simpl; [exact IH | discriminate].
Qed.

(** X15. The avatar never falls back to nothing: [getInitials] returns a
    non-empty string for every argument (a name, the empty string, [null] or
    [undefined]) and whatever upper-casing does; so the fallback initials of
    the user menu are never empty, and neither is the alt text of the
    picture, whatever the profile name and the e-mail address are. *)
Theorem initials_never_empty (name : option string) (auth : Header.Auth) :
  Header.getInitials toUpperCase name <> EmptyString
  /\ forall src alt fallback title subtitle items,
       Header.accountArea toUpperCase auth
       = Header.UserMenu src alt fallback title subtitle items ->
       alt <> EmptyString /\ fallback <> EmptyString.
Proof.
  assert (G : forall n, Header.getInitials toUpperCase n <> EmptyString).
  { intros [s|]; unfold Header.getInitials; [|discriminate]. cbv zeta.
    destruct (String.eqb s ""); [discriminate|].
    destruct (String.eqb_spec (toUpperCase
               (Header.joinEmpty (List.map Header.index0 (Header.splitSpace s))))
               "") as [E|E]; [discriminate | exact E]. }
  split; [apply G|].
  intros src alt fallback title subtitle items.
  unfold Header.accountArea.
  destruct (Header.loading auth); [discriminate|].
  destruct (Header.user auth) as [u|]; [|discriminate].
  intros [= _ <- <- _ _ _]. split; [|apply G].
  destruct (Header.orElse (Header.profileName auth) (Header.email u)) as [n|];
    [|discriminate].
  simpl. destruct (String.eqb_spec n "") as [En|En];
    [discriminate | exact En].
Qed.

(** X16. One initial per word.  For an upper-casing that maps the empty
    string, and only it, to the empty string: [getInitials] of a name is "U"
    when the name is missing, empty or made of spaces only, and otherwise
    the upper-cased first characters of its words, in order.  A word is a
    maximal run of characters other than the space; leading, trailing and
    repeated spaces add nothing. *)
Theorem initials_are_word_starts :
  (forall s, toUpperCase s = EmptyString <-> s = EmptyString) ->
  Header.getInitials toUpperCase None = "U"
  /\ forall name,
       Header.getInitials toUpperCase (Some name)
       = if Header.isBlank name then "U"
         else toUpperCase (Header.scanInitials true name).
Proof.
  intros Hup. split; [reflexivity|]. intros name.
  unfold Header.getInitials. rewrite joinEmpty_scan.
  destruct (String.eqb_spec name "") as [->|Hn]; [reflexivity|].
  destruct (Header.isBlank name) eqn:B.
  - rewrite (scanInitials_blank name true B).
    rewrite (proj2 (Hup EmptyString) eq_refl). reflexivity.
  - destruct (String.eqb_spec (toUpperCase (Header.scanInitials true name)) "")
      as [E|E]; [|reflexivity].
    apply (proj1 (Hup _)) in E. apply scanInitials_not_blank in B.
    destruct (B E).
Qed.
End HeaderFacts.

Lemma upperAscii_empty (s : string) :
  Header.upperAscii s = EmptyString <-> s = EmptyString.
Proof. destruct s; simpl; split; (reflexivity || discriminate). Qed.

Lemma initials_are_word_starts_witness :
  Header.getInitials Header.upperAscii (Some "  rahim  uddin khan ")
  = Header.upperAscii (Header.scanInitials true "  rahim  uddin khan ").
Proof.
  apply (initials_are_word_starts Header.upperAscii upperAscii_empty).
Defined.

Example initials_of_a_name :
  Header.getInitials Header.upperAscii (Some "  rahim  uddin khan ") = "RUK"
  /\ Header.getInitials Header.upperAscii (Some "   ") = "U"
  /\ Header.getInitials Header.upperAscii (Some "donor@example.org") = "D".
Proof. repeat split; reflexivity. Qed.

Lemma omap_renderLink (auth : Header.Auth) (pathname : string)
    (links : list Header.NavLink) :
  List.map Header.nb_href (omap (Header.renderLink auth pathname) links)
  = List.map Header.href
      (List.filter (fun link => negb (Header.protected link)
                                || bool_decide (is_Some (Header.user auth)))
                   links).
Proof.
  induction links as [|link links IH]; [reflexivity|].
  change (omap (Header.renderLink auth pathname) (link :: links))
    with (match Header.renderLink auth pathname link with
          | Some b => b :: omap (Header.renderLink auth pathname) links
          | None => omap (Header.renderLink auth pathname) links
          end).
  unfold Header.renderLink at 1. cbn [List.filter].
  destruct (Header.protected link), (bool_decide (is_Some (Header.user auth))),
           (Header.loading auth);
    cbn [negb andb orb List.map Header.nb_href]; rewrite IH; reflexivity.
Qed.

(** X17. Who sees which link.  The navigation shows, in the order of
    [navLinks], the links that are not protected and, when a user is signed
    in, the protected ones as well.  The [loading] flag of the
    authentication makes no difference: a protected link is hidden from a
    visitor without a user both while loading and afterwards. *)
Theorem protected_links_need_a_user (auth : Header.Auth) (pathname : string) :
  List.map Header.nb_href (Header.nav auth pathname)
  = List.map Header.href
      (List.filter (fun link => negb (Header.protected link)
                                || bool_decide (is_Some (Header.user auth)))
                   Header.navLinks)
  /\ forall auth',
       Header.user auth' = Header.user auth ->
       Header.nav auth' pathname = Header.nav auth pathname.
Proof.
  split; [apply omap_renderLink|].
  intros auth' Hu. unfold Header.nav.
  assert (E : forall link, Header.renderLink auth' pathname link
                           = Header.renderLink auth pathname link).
  { intros link. unfold Header.renderLink. rewrite Hu.
    destruct (Header.protected link),
             (bool_decide (is_Some (Header.user auth))),
             (Header.loading auth), (Header.loading auth'); reflexivity. }
  induction Header.navLinks as [|link links IH]; [reflexivity|].
  change (omap (Header.renderLink auth' pathname) (link :: links))
    with (match Header.renderLink auth' pathname link with
          | Some b => b :: omap (Header.renderLink auth' pathname) links
          | None => omap (Header.renderLink auth' pathname) links
          end).
  rewrite E, IH. reflexivity.
Qed.

Lemma protected_links_need_a_user_witness :
  Header.nav {| Header.user := None; Header.userProfile := None;
                Header.loading := true; Header.isAdmin := false |} "/donors"
  = Header.nav {| Header.user := None; Header.userProfile := None;
                  Header.loading := false; Header.isAdmin := false |} "/donors".
Proof.
  apply (protected_links_need_a_user
           {| Header.user := None; Header.userProfile := None;
              Header.loading := false; Header.isAdmin := false |} "/donors").
  reflexivity.
Defined.

Lemma renderLink_Some (auth : Header.Auth) (pathname : string)
    (link : Header.NavLink) (b : Header.NavButton) :
  Header.renderLink auth pathname link = Some b ->
  Header.nb_href b = Header.href link
  /\ Header.isSecondary b = String.eqb pathname (Header.href link).
Proof.
  unfold Header.renderLink.
  destruct (_ && _ && Header.loading auth); [discriminate|].
  destruct (_ && _ && negb (Header.loading auth)); [discriminate|].
  intros [= <-]. unfold Header.isSecondary. simpl.
  destruct (String.eqb pathname (Header.href link)); auto.
Qed.

Lemma at_most_one {A B : Type} (f : A -> B) (p : A -> bool) (c : B)
    (l : list A) :
  List.NoDup (List.map f l) ->
  (forall x, In x l -> p x = true -> f x = c) ->
  (List.length (List.filter p l) <= 1)%nat.
Proof.
  induction l as [|x l IH]; intros Hnd Hp; simpl; [lia|].
  inversion Hnd as [|y ys Hx Hl]; subst.
  specialize (IH Hl (fun z Hz => Hp z (or_intror Hz))).
  destruct (p x) eqn:Px; [|exact IH].
  destruct (List.filter p l) as [|z zs] eqn:F; [simpl; lia|].
  exfalso. apply Hx.
  assert (Hz : In z (List.filter p l)) by (rewrite F; now left).
  apply List.filter_In in Hz as [Hz Pz].
  rewrite (Hp x (or_introl eq_refl) Px), <- (Hp z (or_intror Hz) Pz).
  apply List.in_map. exact Hz.
Qed.

(** X18. At most one link is marked as the current page.  A button of the
    navigation has the variant "secondary" exactly when its [href] is the
    path name, letter for letter, and since the [href]s of [navLinks] are
    pairwise different no two buttons have it.  A path that is no [href],
    such as "/requests/" with a trailing slash, marks none. *)
Theorem at_most_one_active_link (auth : Header.Auth) (pathname : string) :
  (forall b, In b (Header.nav auth pathname) ->
     (Header.isSecondary b = true <-> Header.nb_href b = pathname))
  /\ (List.length (List.filter Header.isSecondary (Header.nav auth pathname))
      <= 1)%nat.
Proof.
  assert (S : forall b, In b (Header.nav auth pathname) ->
                (Header.isSecondary b = true <-> Header.nb_href b = pathname)).
  { intros b Hb. apply list_elem_of_In in Hb.
    apply list_elem_of_omap in Hb as (link & _ & Hl).
    apply renderLink_Some in Hl as [-> ->].
    rewrite String.eqb_eq. split; congruence. }
  split; [exact S|].
  apply (at_most_one Header.nb_href _ pathname).
  - unfold Header.nav. rewrite omap_renderLink.
    rewrite <- (List.map_id (List.filter _ Header.navLinks)).
    rewrite List.map_map. apply (NoDup_map_filter Header.href).
    repeat (constructor; [simpl; intuition discriminate|]). constructor.
  - intros b Hb Pb. apply S; assumption.
Qed.

(** ** The sort after the query's order *)

Lemma filter_none {A : Type} (p : A -> bool) (l : list A) :
  (forall x, In x l -> p x = false) -> List.filter p l = [].
Proof.
  induction l as [|x l IH]; intros H; simpl; [reflexivity|].
  rewrite (H x) by now left. apply IH. intros; apply H; now right.
Qed.

Lemma StronglySorted_app {A : Type} (R : A -> A -> Prop) (l1 l2 : list A) :
  StronglySorted R l1 -> StronglySorted R l2 ->
  (forall x y, In x l1 -> In y l2 -> R x y) ->
  StronglySorted R (l1 ++ l2).
Proof.
  intros S1 S2 H. induction S1 as [|x l1 S1 IH Hx]; simpl; [exact S2|].
  constructor.
  - apply IH. intros; apply H; [now right | assumption].
  - rewrite List.Forall_forall in *. intros y Hy.
    apply List.in_app_or in Hy as [Hy|Hy]; [auto|].
    apply H; [now left | exact Hy].
Qed.

Lemma StronglySorted_weaken {A : Type} (R R' : A -> A -> Prop) (l : list A) :
  StronglySorted R l ->
  (forall x y, In x l -> In y l -> R x y -> R' x y) ->
  StronglySorted R' l.
Proof.
  induction 1 as [|x l Hs IH Hx]; intros H; constructor.
  - apply IH. intros; apply H; auto; now right.
  - rewrite List.Forall_forall in *. intros y Hy.
    apply H; [now left | now right | auto].
Qed.

Lemma typed_rank (r : JSObject) :
  isBloodRequest r = true ->
  (rankOf r = 1 \/ rankOf r = 2 \/ rankOf r = 3)
  /\ strictEqString (getProp r "urgency") "Urgent" = (rankOf r =? 1)
  /\ strictEqString (getProp r "urgency") "Moderate" = (rankOf r =? 2)
  /\ strictEqString (getProp r "urgency") "Low" = (rankOf r =? 3).
Proof.
  intros T.
  destruct (isBloodRequest_fields r T) as (_ & _ & _ & k & _ & _ & _ & _ & Hk).
  unfold rankOf. rewrite Hk.
  apply urgencyRank_Some in Hk as [[-> ->]|[[-> ->]|[-> ->]]];
    simpl; auto 10.
Qed.

(** The records of rank [i], in the order of the list. *)
Lemma byRank_sorted (i : Z) (K : list JSObject) :
  newestFirst K ->
  StronglySorted (le cmpKey) (List.filter (fun r => rankOf r =? i) K).
Proof.
  intros HK.
  apply (StronglySorted_weaken (fun a b => (millisOf b <= millisOf a)%Q)).
  - apply StronglySorted_filter, HK.
  - intros x y Hx Hy Hm.
    apply List.filter_In in Hx as [_ Hx], Hy as [_ Hy].
    apply Z.eqb_eq in Hx, Hy. apply cmpKey_le.
    right. split; [lia | exact Hm].
Qed.

Lemma byRank_tie (z : JSObject) (i : Z) (K : list JSObject) :
  List.filter (tieb cmpKey z) (List.filter (fun r => rankOf r =? i) K)
  = if rankOf z =? i then List.filter (tieb cmpKey z) K else [].
Proof.
  rewrite filter_andb.
  destruct (Z.eqb_spec (rankOf z) i) as [E|E].
  - apply List.filter_ext. intros r. unfold tieb.
    destruct (Z.eqb_spec (cmpKey z r) 0) as [T|T];
      [|rewrite andb_false_r; reflexivity].
    apply cmpKey_zero in T as [T _].
    rewrite andb_true_r. apply Z.eqb_eq. lia.
  - apply filter_none. intros r _. unfold tieb.
    destruct (Z.eqb_spec (cmpKey z r) 0) as [T|T];
      [|apply andb_false_r].
    apply cmpKey_zero in T as [T _].
    rewrite andb_true_r. apply Z.eqb_neq. lia.
Qed.

Lemma byRank_Permutation (K : list JSObject) :
  (forall r, In r K -> rankOf r = 1 \/ rankOf r = 2 \/ rankOf r = 3) ->
  Permutation (List.filter (fun r => rankOf r =? 1) K
               ++ List.filter (fun r => rankOf r =? 2) K
               ++ List.filter (fun r => rankOf r =? 3) K) K.
Proof.
  induction K as [|x K IH]; intros H; [reflexivity|].
  specialize (IH (fun r Hr => H r (or_intror Hr))).
  simpl. destruct (H x (or_introl eq_refl)) as [E|[E|E]]; rewrite E; simpl.
  - constructor. exact IH.
  - symmetry. apply Permutation_cons_app. symmetry. exact IH.
  - symmetry. rewrite app_assoc. apply Permutation_cons_app.
    rewrite <- app_assoc. symmetry. exact IH.
Qed.

Lemma byRank_is_sort (K : list JSObject) :
  (forall r, In r K -> rankOf r = 1 \/ rankOf r = 2 \/ rankOf r = 3) ->
  newestFirst K ->
  List.filter (fun r => rankOf r =? 1) K
  ++ List.filter (fun r => rankOf r =? 2) K
  ++ List.filter (fun r => rankOf r =? 3) K
  = sortBy cmpKey K.
Proof.
  intros HR HK. apply sortKey_unique.
  - apply byRank_Permutation, HR.
  - assert (X : forall i j x y, i < j ->
               In x (List.filter (fun r => rankOf r =? i) K) ->
               In y (List.filter (fun r => rankOf r =? j) K) ->
               le cmpKey x y).
    { intros i j x y Hij Hx Hy.
      apply List.filter_In in Hx as [_ Hx], Hy as [_ Hy].
      apply Z.eqb_eq in Hx, Hy. apply cmpKey_le. lia. }
    apply StronglySorted_app; [apply byRank_sorted, HK | |].
    + apply StronglySorted_app; [apply byRank_sorted, HK ..|].
      intros x y. apply (X 2 3). lia.
    + intros x y Hx Hy. apply List.in_app_or in Hy as [Hy|Hy].
      * apply (X 1 2 x y); [lia | assumption ..].
      * apply (X 1 3 x y); [lia | assumption ..].
  - intros z. rewrite !List.filter_app, !byRank_tie.
    destruct (Z.eqb_spec (rankOf z) 1) as [E1|E1],
             (Z.eqb_spec (rankOf z) 2) as [E2|E2],
             (Z.eqb_spec (rankOf z) 3) as [E3|E3];
      try lia; rewrite ?app_nil_r; try reflexivity.
    simpl. symmetry. apply filter_none. intros r Hr. unfold tieb.
    apply Z.eqb_neq. intros T. apply cmpKey_zero in T as [T _].
    destruct (HR r Hr) as [?|[?|?]]; lia.
Qed.

(** X19. After the query's order the sort only groups by urgency.  When the
    snapshot of typed records arrives newest first, as the query asks, the
    pipeline returns the Urgent records that pass the filters, then the
    Moderate ones, then the Low ones, each group in the order of the
    snapshot. *)
Theorem sort_groups_by_urgency (h : Heap) (requests : Addr)
    (R : list JSObject) (g l : string) :
  h !! requests = Some R ->
  forallb isBloodRequest R = true ->
  newestFirst R ->
  returns h requests g l
    (withUrgency "Urgent" (kept R g l)
     ++ withUrgency "Moderate" (kept R g l)
     ++ withUrgency "Low" (kept R g l)).
Proof.
  intros Ha HR HN.
  pose proof (kept_typed R g l HR) as HK.
  assert (T : forall r, In r (kept R g l) -> isBloodRequest r = true)
    by (intros r; apply forallb_In, HK).
  unfold withUrgency.
  rewrite (List.filter_ext_in _ (fun r => rankOf r =? 1))
    by (intros r Hr; apply typed_rank, T, Hr).
  rewrite (List.filter_ext_in
             (fun r => strictEqString (getProp r "urgency") "Moderate")
             (fun r => rankOf r =? 2))
    by (intros r Hr; apply typed_rank, T, Hr).
  rewrite (List.filter_ext_in
             (fun r => strictEqString (getProp r "urgency") "Low")
             (fun r => rankOf r =? 3))
    by (intros r Hr; apply typed_rank, T, Hr).
  rewrite byRank_is_sort.
  - apply filteredRequests_typed; assumption.
  - intros r Hr. apply typed_rank, T, Hr.
  - unfold newestFirst, kept. apply StronglySorted_filter, StronglySorted_filter, HN.
Qed.

Lemma sort_groups_by_urgency_witness :
  returns [[request1; request2]] 0%nat "all" ""
    (withUrgency "Urgent" (kept [request1; request2] "all" "")
     ++ withUrgency "Moderate" (kept [request1; request2] "all" "")
     ++ withUrgency "Low" (kept [request1; request2] "all" "")).
Proof.
  apply sort_groups_by_urgency.
  - reflexivity.
  - vm_compute. reflexivity.
  - unfold newestFirst. repeat constructor. vm_compute. discriminate.
Defined.

Lemma initials_never_empty_witness :
  Header.getInitials Header.upperAscii (Some "   ") <> EmptyString.
Proof.
  exact (proj1 (initials_never_empty Header.upperAscii (Some "   ")
                  {| Header.user := Some {| Header.email := Some "";
                                            Header.photoURL := None |};
                     Header.userProfile := None;
                     Header.loading := false;
                     Header.isAdmin := false |})).
Defined.

Lemma at_most_one_active_link_witness :
  (List.length
     (List.filter Header.isSecondary
        (Header.nav {| Header.user := None; Header.userProfile := None;
                       Header.loading := false; Header.isAdmin := false |}
                    "/requests")) <= 1)%nat.
Proof.
  exact (proj2 (at_most_one_active_link
                  {| Header.user := None; Header.userProfile := None;
                     Header.loading := false; Header.isAdmin := false |}
                  "/requests")).
Defined.
